(** * cloudflare-cors-anywhere: the request-admission and header pipeline

    A shallow embedding of [src/index.js] (a Cloudflare Worker acting as a
    CORS proxy) together with the part of the JavaScript platform that the
    worker's decisions depend on.

    - JavaScript strings are sequences of UTF-16 code units ([jsstring]).
    - An exception is an explicit outcome ([Throw]) of a [result].
    - [RegExp], [URI], [JSON], plain objects and [Headers] model the
      ECMAScript and Fetch operations the worker calls.
    - What the worker cannot decide on its own is a field of [Platform]:
      the regular-expression engine, the case canonicalisation it uses,
      the rendering of numbers, and the network.

    Left to the platform and not modelled: the validation of header names
    and values and the trimming of header values (every value the worker
    sets is a header value it has read, a join of header names, JSON text,
    or the text null), the validation of the status text, and everything
    [new Request] and the network do with the outbound request, which is
    the [upstream] field. *)

From Stdlib Require Import List NArith Bool Lia String Ascii DecimalString Arith Sorted.
Import ListNotations.

Set Warnings "-register-all".

Local Open Scope N_scope.
Local Open Scope list_scope.

(* ================================================================== *)
(** ** Strings and exceptions *)
(* ================================================================== *)

(** A JavaScript string: its UTF-16 code units. *)
Definition jsstring : Type := list N.

(** An ASCII literal as a JavaScript string. *)
Definition js (s : string) : jsstring :=
  map N_of_ascii (list_ascii_of_string s).

Fixpoint str_eqb (a b : jsstring) : bool :=
  match a, b with
  | [], [] => true
  | x :: a', y :: b' => (x =? y) && str_eqb a' b'
  | _, _ => false
  end.

(** [s.startsWith(p)] *)
Fixpoint startsWith (p s : jsstring) : bool :=
  match p, s with
  | [], _ => true
  | x :: p', y :: s' => (x =? y) && startsWith p' s'
  | _ :: _, [] => false
  end.

(** [s.includes(c)] for a one-character needle. *)
Definition includes (c : N) (s : jsstring) : bool := existsb (N.eqb c) s.

(** [s.substr(1)] *)
Definition substr1 (s : jsstring) : jsstring := tl s.

(** [parts.join(sep)] *)
Fixpoint join (sep : jsstring) (parts : list jsstring) : jsstring :=
  match parts with
  | [] => []
  | [p] => p
  | p :: rest => p ++ sep ++ join sep rest
  end.

(** Decimal rendering of an array index. *)
Definition dec (n : N) : jsstring := js (NilZero.string_of_uint (N.to_uint n)).

(** The JavaScript errors the worker can meet. *)
Inductive exn : Type :=
| URIError
| SyntaxError
| TypeError
| RangeError
| NetworkError.

Inductive result (A : Type) : Type :=
| Ok (a : A)
| Throw (e : exn).
Arguments Ok {A} a.
Arguments Throw {A} e.

Definition bind {A B : Type} (r : result A) (k : A -> result B) : result B :=
  match r with
  | Ok a => k a
  | Throw e => Throw e
  end.

Notation "x <- r ;; k" := (bind r (fun x => k))
  (at level 61, r at next level, right associativity).

(** ASCII case mapping. *)
Definition ascii_upper (c : N) : N :=
  if (97 <=? c) && (c <=? 122) then c - 32 else c.
Definition ascii_lower (c : N) : N :=
  if (65 <=? c) && (c <=? 90) then c + 32 else c.
Definition lower (s : jsstring) : jsstring := map ascii_lower s.

(* ================================================================== *)
(** ** RegExp: a fragment of ECMAScript regular expressions *)
(* ================================================================== *)

Module RegExp.

(** Patterns of the fragment.  [Chr c] is a literal character, [Any] is
    [.], [Bol] and [Eol] are [^] and [$].  [r+] is read as [r r*] and
    [r?] as [(r|)]; groups leave no trace, since the fragment has no
    back-references. *)
Inductive regex : Type :=
| Eps
| Chr (c : N)
| Any
| Bol
| Eol
| Cat (r1 r2 : regex)
| Alt (r1 r2 : regex)
| Star (r : regex).

(** Outcome of reading a pattern source.  [Malformed] sources make
    [new RegExp] throw a SyntaxError; [Outside] sources use syntax the
    fragment does not cover (classes, braces, letter and digit escapes,
    look-around), about which the model says nothing. *)
Inductive parsed : Type :=
| Parsed (r : regex)
| Malformed
| Outside.

(** What a quantifier would apply to. *)
Inductive qstate : Type :=
| NoAtom      (* nothing to repeat *)
| Atom        (* the last term is an atom *)
| Quantified. (* the last term already carries a quantifier *)

(** One open group: the alternatives already closed by [|], and the terms
    of the current alternative, last term first. *)
Record frame : Type := mkFrame { alts : list regex; terms : list regex }.

Definition seq_of (ts : list regex) : regex :=
  fold_left (fun acc t => Cat t acc) ts Eps.

Definition close_frame (f : frame) : regex :=
  fold_left (fun acc a => Alt a acc) (alts f) (seq_of (terms f)).

Definition push_term (t : regex) (f : frame) : frame :=
  mkFrame (alts f) (t :: terms f).

(** The twelve syntax characters after which a backslash is an identity
    escape, plus [/] and [-]. *)
Definition identity_escape (c : N) : bool :=
  existsb (N.eqb c)
    [94; 36; 92; 46; 42; 43; 63; 40; 41; 91; 93; 123; 125; 124; 47; 45].

(** Characters that stand for themselves. *)
Definition pattern_char (c : N) : bool :=
  negb (existsb (N.eqb c) [94; 36; 92; 46; 42; 43; 63; 40; 41; 91; 93; 123; 125; 124]).

Definition quantify (q : N) (r : regex) : regex :=
  if q =? 42 then Star r            (* r* *)
  else if q =? 43 then Cat r (Star r) (* r+ *)
  else Alt r Eps.                   (* r? *)

(** One pass over the source; [cur] is the innermost open group and
    [stack] the groups around it. *)
Fixpoint parse_from (src : jsstring) (cur : frame) (stack : list frame)
         (q : qstate) : parsed :=
  match src with
  | [] =>
      match stack with
      | [] => Parsed (close_frame cur)
      | _ :: _ => Malformed              (* unterminated group *)
      end
  | c :: rest =>
      if c =? 40 then                    (* ( *)
        match rest with
        | 63 :: 58 :: rest' => parse_from rest' (mkFrame [] []) (cur :: stack) NoAtom
        | 63 :: _ => Outside             (* look-around, named group *)
        | _ => parse_from rest (mkFrame [] []) (cur :: stack) NoAtom
        end
      else if c =? 41 then               (* ) *)
        match stack with
        | [] => Malformed                (* unmatched ) *)
        | up :: stack' =>
            parse_from rest (push_term (close_frame cur) up) stack' Atom
        end
      else if c =? 124 then              (* | *)
        parse_from rest (mkFrame (seq_of (terms cur) :: alts cur) []) stack NoAtom
      else if (c =? 42) || (c =? 43) || (c =? 63) then   (* * + ? *)
        match q, terms cur with
        | Atom, t :: ts =>
            parse_from rest (mkFrame (alts cur) (quantify c t :: ts)) stack Quantified
        | Quantified, _ =>
            if c =? 63 then parse_from rest cur stack NoAtom  (* lazy mark *)
            else Malformed
        | _, _ => Malformed              (* nothing to repeat *)
        end
      else if c =? 92 then               (* \ *)
        match rest with
        | [] => Malformed                (* \ at end of pattern *)
        | e :: rest' =>
            if identity_escape e
            then parse_from rest' (push_term (Chr e) cur) stack Atom
            else Outside
        end
      else if c =? 94 then parse_from rest (push_term Bol cur) stack NoAtom
      else if c =? 36 then parse_from rest (push_term Eol cur) stack NoAtom
      else if c =? 46 then parse_from rest (push_term Any cur) stack Atom
      else if pattern_char c then parse_from rest (push_term (Chr c) cur) stack Atom
      else Outside
  end.

Definition parse (src : jsstring) : parsed :=
  parse_from src (mkFrame [] []) [] NoAtom.

(** LineTerminator: LF, CR, LS, PS. *)
Definition line_terminator (c : N) : bool :=
  (c =? 10) || (c =? 13) || (c =? 8232) || (c =? 8233).

Section Matching.
(** Canonicalize of the [i] flag. *)
Variable canon : N -> N.

(** [star step k n]: zero or more rounds of [step], each consuming at
    least one character, then [k]; [n] bounds the number of rounds. *)
Fixpoint star (step : bool -> jsstring -> (bool -> jsstring -> bool) -> bool)
         (k : bool -> jsstring -> bool) (n : nat) (b : bool) (s : jsstring) : bool :=
  k b s ||
  match n with
  | O => false
  | S n' =>
      step b s (fun b' s' =>
        (List.length s' <? List.length s)%nat && star step k n' b' s')
  end.

(** Backtracking matcher.  [b] tells whether the position is the start
    of the subject, [s] is what remains of it, [k] is what must match
    afterwards. *)
Fixpoint m (r : regex) (b : bool) (s : jsstring)
         (k : bool -> jsstring -> bool) : bool :=
  match r with
  | Eps => k b s
  | Chr c =>
      match s with
      | x :: s' => (canon x =? canon c) && k false s'
      | [] => false
      end
  | Any =>
      match s with
      | x :: s' => negb (line_terminator x) && k false s'
      | [] => false
      end
  | Bol => b && k b s
  | Eol => match s with [] => k b s | _ :: _ => false end
  | Cat r1 r2 => m r1 b s (fun b' s' => m r2 b' s' k)
  | Alt r1 r2 => m r1 b s k || m r2 b s k
  | Star r' => star (m r') k (List.length s) b s
  end.

(** A match starting here or further right. *)
Fixpoint search (r : regex) (b : bool) (s : jsstring) : bool :=
  m r b s (fun _ _ => true) ||
  match s with
  | [] => false
  | _ :: s' => search r false s'
  end.

(** [regex.test(s)] without the [g], [y] and [m] flags. *)
Definition test (r : regex) (s : jsstring) : bool := search r true s.
End Matching.

End RegExp.

(* ================================================================== *)
(** ** decodeURIComponent *)
(* ================================================================== *)

Module URI.

Definition hexval (c : N) : option N :=
  if (48 <=? c) && (c <=? 57) then Some (c - 48)
  else if (97 <=? c) && (c <=? 102) then Some (c - 87)
  else if (65 <=? c) && (c <=? 70) then Some (c - 55)
  else None.

(** Number of octets announced by a leading octet (0 when it cannot lead). *)
Definition sequence_length (b : N) : nat :=
  if b <? 192 then 0
  else if b <? 224 then 2
  else if b <? 240 then 3
  else if b <? 248 then 4
  else 0.

Definition continuation (b : N) : bool := (128 <=? b) && (b <=? 191).

(** The code point encoded by a complete UTF-8 sequence, when well formed:
    no overlong form, no surrogate, nothing above U+10FFFF. *)
Definition utf8_code_point (octets : list N) : option N :=
  match octets with
  | [b0; b1] =>
      let cp := (b0 - 192) * 64 + (b1 - 128) in
      if continuation b1 && (128 <=? cp) then Some cp else None
  | [b0; b1; b2] =>
      let cp := (b0 - 224) * 4096 + (b1 - 128) * 64 + (b2 - 128) in
      if continuation b1 && continuation b2 && (2048 <=? cp)
         && negb ((55296 <=? cp) && (cp <=? 57343))
      then Some cp else None
  | [b0; b1; b2; b3] =>
      let cp := (b0 - 240) * 262144 + (b1 - 128) * 4096 + (b2 - 128) * 64 + (b3 - 128) in
      if continuation b1 && continuation b2 && continuation b3
         && (65536 <=? cp) && (cp <=? 1114111)
      then Some cp else None
  | _ => None
  end.

Definition utf16_encode (cp : N) : jsstring :=
  if cp <? 65536 then [cp]
  else [55296 + (cp - 65536) / 1024; 56320 + (cp - 65536) mod 1024].

(** The Decode operation with an empty set of preserved escapes.
    [pend] holds a multi-octet sequence in progress: how many octets are
    still due, and those read so far. *)
Fixpoint decode (pend : option (nat * list N)) (s : jsstring) : result jsstring :=
  match s with
  | [] =>
      match pend with
      | None => Ok []
      | Some _ => Throw URIError
      end
  | c :: rest0 =>
      if c =? 37 then                           (* % *)
        match rest0 with
        | h :: l :: rest =>
            match hexval h, hexval l with
            | Some a, Some b =>
                let B := 16 * a + b in
                match pend with
                | None =>
                    if B <? 128 then r <- decode None rest ;; Ok (B :: r)
                    else
                      match sequence_length B with
                      | S n => decode (Some (n, [B])) rest
                      | O => Throw URIError
                      end
                | Some (S O, acc) =>
                    match utf8_code_point (acc ++ [B]) with
                    | Some cp => r <- decode None rest ;; Ok (utf16_encode cp ++ r)
                    | None => Throw URIError
                    end
                | Some (S n, acc) => decode (Some (n, acc ++ [B])) rest
                | Some (O, _) => Throw URIError
                end
            | _, _ => Throw URIError
            end
        | _ => Throw URIError
        end
      else
        match pend with
        | None => r <- decode None rest0 ;; Ok (c :: r)
        | Some _ => Throw URIError
        end
  end.

Definition decodeURIComponent (s : jsstring) : result jsstring := decode None s.

(** Some [%] of [s] is not followed by two hexadecimal digits. *)
Fixpoint has_bad_escape (s : jsstring) : bool :=
  match s with
  | [] => false
  | c :: rest =>
      ((c =? 37) &&
       match rest with
       | h :: l :: _ =>
           match hexval h, hexval l with
           | Some _, Some _ => false
           | _, _ => true
           end
       | _ => true
       end)
      || has_bad_escape rest
  end.

End URI.

(* ================================================================== *)
(** ** Values, plain objects and JSON *)
(* ================================================================== *)

(** The values [JSON.parse] can produce.  A number is kept as the text it
    was written with; its rendering is the platform's. *)
Inductive jsvalue : Type :=
| JNull
| JBool (b : bool)
| JNum (lexeme : jsstring)
| JStr (s : jsstring)
| JArr (items : list jsvalue)
| JObj (props : list (jsstring * jsvalue)).

(** The own enumerable string-keyed properties of a plain object, in the
    order [Object.entries] and [JSON.stringify] visit them: array indices
    in ascending order, then the other keys in order of creation. *)
Definition jsobject : Type := list (jsstring * jsvalue).

Definition is_digit (c : N) : bool := (48 <=? c) && (c <=? 57).

Definition digits_value (s : jsstring) : N :=
  fold_left (fun acc c => 10 * acc + (c - 48)) s 0.

(** An array index: a canonical decimal numeral below 2^32 - 1. *)
Definition array_index (k : jsstring) : option N :=
  match k with
  | [] => None
  | c :: rest =>
      if forallb is_digit k
         && (negb (c =? 48) || match rest with [] => true | _ => false end)
         && (List.length k <=? 10)%nat
         && (digits_value k <? 4294967295)
      then Some (digits_value k) else None
  end.

(** CreateDataProperty on a plain object: an existing key keeps its place. *)
Fixpoint obj_define (k : jsstring) (v : jsvalue) (o : jsobject) : jsobject :=
  match o with
  | [] => [(k, v)]
  | (k', v') :: rest =>
      if str_eqb k k' then (k, v) :: rest
      else
        match array_index k, array_index k' with
        | Some i, Some j =>
            if i <? j then (k, v) :: o else (k', v') :: obj_define k v rest
        | Some _, None => (k, v) :: o
        | None, _ => (k', v') :: obj_define k v rest
        end
  end.

(** The assignment [o[k] = v] on an object created by [{}].  The key
    [__proto__] reaches the accessor inherited from [Object.prototype],
    which creates no own property (a string is ignored, an object or null
    becomes the prototype). *)
Definition obj_set (k : jsstring) (v : jsvalue) (o : jsobject) : jsobject :=
  if str_eqb k (js "__proto__") then o else obj_define k v o.

Fixpoint obj_get (o : jsobject) (k : jsstring) : option jsvalue :=
  match o with
  | [] => None
  | (k', v) :: rest => if str_eqb k k' then Some v else obj_get rest k
  end.

Fixpoint indexed {A : Type} (i : N) (l : list A) : list (jsstring * A) :=
  match l with
  | [] => []
  | x :: rest => (dec i, x) :: indexed (i + 1) rest
  end.

(** [Object.entries(v)] for a value other than null: the properties of an
    object, the indexed elements of an array, the indexed characters of a
    string, nothing for a number or a boolean. *)
Definition Object_entries (v : jsvalue) : list (jsstring * jsvalue) :=
  match v with
  | JObj props => props
  | JArr items => indexed 0 items
  | JStr s => indexed 0 (map (fun c => JStr [c]) s)
  | JNull | JBool _ | JNum _ => []
  end.

Module JSON.

Definition is_ws (c : N) : bool :=
  (c =? 32) || (c =? 9) || (c =? 10) || (c =? 13).

Fixpoint skip_ws (s : jsstring) : jsstring :=
  match s with
  | c :: rest => if is_ws c then skip_ws rest else s
  | [] => []
  end.

Definition simple_escape (e : N) : option N :=
  if e =? 34 then Some 34            (* quotation mark *)
  else if e =? 92 then Some 92       (* backslash *)
  else if e =? 47 then Some 47       (* / *)
  else if e =? 98 then Some 8        (* b *)
  else if e =? 102 then Some 12      (* f *)
  else if e =? 110 then Some 10      (* n *)
  else if e =? 114 then Some 13      (* r *)
  else if e =? 116 then Some 9       (* t *)
  else None.

(** The characters of a string literal after its opening quote, and what
    follows the closing quote. *)
Fixpoint parse_string (s : jsstring) : option (jsstring * jsstring) :=
  match s with
  | [] => None
  | c :: rest =>
      if c =? 34 then Some ([], rest)
      else if c =? 92 then
        match rest with
        | [] => None
        | e :: rest' =>
            if e =? 117 then           (* u and four hexadecimal digits *)
              match rest' with
              | h1 :: h2 :: h3 :: h4 :: rest'' =>
                  match URI.hexval h1, URI.hexval h2, URI.hexval h3, URI.hexval h4 with
                  | Some a, Some b, Some c', Some d =>
                      match parse_string rest'' with
                      | Some (str, r) => Some ((4096 * a + 256 * b + 16 * c' + d) :: str, r)
                      | None => None
                      end
                  | _, _, _, _ => None
                  end
              | _ => None
              end
            else
              match simple_escape e with
              | Some x =>
                  match parse_string rest' with
                  | Some (str, r) => Some (x :: str, r)
                  | None => None
                  end
              | None => None
              end
        end
      else if c <? 32 then None
      else
        match parse_string rest with
        | Some (str, r) => Some (c :: str, r)
        | None => None
        end
  end.

Fixpoint span_digits (s : jsstring) : jsstring * jsstring :=
  match s with
  | c :: rest =>
      if is_digit c then let (ds, r) := span_digits rest in (c :: ds, r)
      else ([], s)
  | [] => ([], [])
  end.

Definition digits1 (s : jsstring) : option (jsstring * jsstring) :=
  match span_digits s with
  | ([], _) => None
  | (ds, r) => Some (ds, r)
  end.

(** The lexeme of a number: [-]? int frac? exp? *)
Definition parse_number (s : jsstring) : option (jsstring * jsstring) :=
  let (sign, s1) := match s with
                    | 45 :: t => ([45], t)
                    | _ => ([], s)
                    end in
  match (match s1 with
         | 48 :: t => Some ([48], t)
         | _ => digits1 s1
         end) with
  | None => None
  | Some (int, s2) =>
      match (match s2 with
             | 46 :: t =>
                 match digits1 t with
                 | Some (ds, r) => Some (46 :: ds, r)
                 | None => None
                 end
             | _ => Some ([], s2)
             end) with
      | None => None
      | Some (frac, s3) =>
          match s3 with
          | e :: t =>
              if (e =? 101) || (e =? 69) then
                let (esign, t') := match t with
                                   | 43 :: u => ([43], u)
                                   | 45 :: u => ([45], u)
                                   | _ => ([], t)
                                   end in
                match digits1 t' with
                | Some (ds, r) => Some (sign ++ int ++ frac ++ e :: esign ++ ds, r)
                | None => None
                end
              else Some (sign ++ int ++ frac, s3)
          | [] => Some (sign ++ int ++ frac, s3)
          end
      end
  end.

(** Recursive descent; every call consumes input, [fuel] bounds the depth. *)
Fixpoint parse_value (fuel : nat) (s : jsstring) : option (jsvalue * jsstring) :=
  match fuel with
  | O => None
  | S f =>
      match skip_ws s with
      | [] => None
      | c :: rest =>
          if c =? 123 then                      (* object *)
            match skip_ws rest with
            | 125 :: r => Some (JObj [], r)
            | _ => parse_members f rest []
            end
          else if c =? 91 then                  (* array *)
            match skip_ws rest with
            | 93 :: r => Some (JArr [], r)
            | _ => parse_elements f rest []
            end
          else if c =? 34 then
            match parse_string rest with
            | Some (str, r) => Some (JStr str, r)
            | None => None
            end
          else if startsWith (js "true") (c :: rest) then
            Some (JBool true, skipn 4 (c :: rest))
          else if startsWith (js "false") (c :: rest) then
            Some (JBool false, skipn 5 (c :: rest))
          else if startsWith (js "null") (c :: rest) then
            Some (JNull, skipn 4 (c :: rest))
          else
            match parse_number (c :: rest) with
            | Some (lexeme, r) => Some (JNum lexeme, r)
            | None => None
            end
      end
  end

with parse_elements (fuel : nat) (s : jsstring) (acc : list jsvalue)
     : option (jsvalue * jsstring) :=
  match fuel with
  | O => None
  | S f =>
      match parse_value f s with
      | None => None
      | Some (v, r) =>
          match skip_ws r with
          | c :: r' =>
              if c =? 44 then parse_elements f r' (acc ++ [v])
              else if c =? 93 then Some (JArr (acc ++ [v]), r')
              else None
          | [] => None
          end
      end
  end

with parse_members (fuel : nat) (s : jsstring) (acc : jsobject)
     : option (jsvalue * jsstring) :=
  match fuel with
  | O => None
  | S f =>
      match skip_ws s with
      | 34 :: r0 =>
          match parse_string r0 with
          | None => None
          | Some (key, r1) =>
              match skip_ws r1 with
              | 58 :: r2 =>
                  match parse_value f r2 with
                  | None => None
                  | Some (v, r3) =>
                      match skip_ws r3 with
                      | c :: r4 =>
                          if c =? 44 then parse_members f r4 (obj_define key v acc)
                          else if c =? 125 then Some (JObj (obj_define key v acc), r4)
                          else None
                      | [] => None
                      end
                  end
              | _ => None
              end
          end
      | _ => None
      end
  end.

(** [JSON.parse(text)] *)
Definition parse (text : jsstring) : result jsvalue :=
  match parse_value (2 * List.length text + 2) text with
  | Some (v, rest) =>
      match skip_ws rest with
      | [] => Ok v
      | _ :: _ => Throw SyntaxError
      end
  | None => Throw SyntaxError
  end.

Definition hex_digit (d : N) : N := if d <? 10 then 48 + d else 87 + d.

(** The six-character escape of a code unit. *)
Definition unicode_escape (c : N) : jsstring :=
  [92; 117; hex_digit (c / 4096); hex_digit ((c / 256) mod 16);
   hex_digit ((c / 16) mod 16); hex_digit (c mod 16)].

Definition high_surrogate (c : N) : bool := (55296 <=? c) && (c <=? 56319).
Definition low_surrogate (c : N) : bool := (56320 <=? c) && (c <=? 57343).

(** QuoteJSONString without the surrounding quotation marks. *)
Fixpoint quote_body (s : jsstring) : jsstring :=
  match s with
  | [] => []
  | c :: rest =>
      if c =? 8 then 92 :: 98 :: quote_body rest
      else if c =? 9 then 92 :: 116 :: quote_body rest
      else if c =? 10 then 92 :: 110 :: quote_body rest
      else if c =? 12 then 92 :: 102 :: quote_body rest
      else if c =? 13 then 92 :: 114 :: quote_body rest
      else if c =? 34 then 92 :: 34 :: quote_body rest
      else if c =? 92 then 92 :: 92 :: quote_body rest
      else if c <? 32 then unicode_escape c ++ quote_body rest
      else if high_surrogate c then
        match rest with
        | d :: rest' =>
            if low_surrogate d then c :: d :: quote_body rest'
            else unicode_escape c ++ quote_body rest
        | [] => unicode_escape c
        end
      else if low_surrogate c then unicode_escape c ++ quote_body rest
      else c :: quote_body rest
  end.

Definition quote (s : jsstring) : jsstring := 34 :: quote_body s ++ [34].

Section Stringify.
(** Number::toString, applied to the number a lexeme denotes. *)
Variable number_to_string : jsstring -> jsstring.

(** [JSON.stringify(v)] *)
Fixpoint stringify (v : jsvalue) : jsstring :=
  match v with
  | JNull => js "null"
  | JBool true => js "true"
  | JBool false => js "false"
  | JNum lexeme => number_to_string lexeme
  | JStr s => quote s
  | JArr items => 91 :: join [44] (map stringify items) ++ [93]
  | JObj props =>
      123 :: join [44] (map (fun kv => quote (fst kv) ++ 58 :: stringify (snd kv)) props)
          ++ [125]
  end.
End Stringify.

End JSON.

(* ================================================================== *)
(** ** Headers, requests and responses *)
(* ================================================================== *)

(** A header list, in the order in which the headers were received or
    added; names compare without regard to ASCII case. *)
Definition Headers : Type := list (jsstring * jsstring).

Definition same_name (a b : jsstring) : bool := str_eqb (lower a) (lower b).

(** [h.get(name)]: the values under that name joined by a comma and a
    space, or null. *)
Definition headers_get (h : Headers) (name : jsstring) : option jsstring :=
  match filter (fun kv => same_name (fst kv) name) h with
  | [] => None
  | found => Some (join (js ", ") (map snd found))
  end.

Definition headers_has (h : Headers) (name : jsstring) : bool :=
  existsb (fun kv => same_name (fst kv) name) h.

(** The headers of [h] under a name. *)
Definition under (name : jsstring) (h : Headers) : Headers :=
  filter (fun kv => same_name (fst kv) name) h.

(** Byte less than, on header names. *)
Fixpoint str_ltb (a b : jsstring) : bool :=
  match a, b with
  | _, [] => false
  | [], _ :: _ => true
  | x :: a', y :: b' => (x <? y) || ((x =? y) && str_ltb a' b')
  end.

(** A name put at its place in a sorted list of names, unless it is there. *)
Fixpoint insert_name (name : jsstring) (names : list jsstring) : list jsstring :=
  match names with
  | [] => [name]
  | x :: rest =>
      if str_ltb name x then name :: names
      else if str_eqb name x then names
      else x :: insert_name name rest
  end.

(** The names of a header list as a sorted set of lower-case names. *)
Definition sorted_names (h : Headers) : list jsstring :=
  fold_right insert_name [] (map (fun kv => lower (fst kv)) h).

(** [h.entries()], the header list sorted and combined: the names come
    out in lower case and in ascending order, each once with what [get]
    gives for it, except set-cookie, whose values come out one by one. *)
Definition headers_entries (h : Headers) : list (jsstring * jsstring) :=
  flat_map
    (fun name =>
       if str_eqb name (js "set-cookie")
       then map (fun kv => (name, snd kv)) (under name h)
       else
         match headers_get h name with
         | Some value => [(name, value)]
         | None => []
         end)
    (sorted_names h).

(** [h.delete(name)] *)
Definition headers_delete (h : Headers) (name : jsstring) : Headers :=
  filter (fun kv => negb (same_name (fst kv) name)) h.

(** [h.append(name, value)] *)
Definition headers_append (h : Headers) (name value : jsstring) : Headers :=
  h ++ [(lower name, value)].

(** [h.set(name, value)]: the first header of that name takes the value
    and the others go; without one, the header is appended. *)
Fixpoint headers_set (h : Headers) (name value : jsstring) : Headers :=
  match h with
  | [] => [(lower name, value)]
  | (k, v) :: rest =>
      if same_name k name then (k, value) :: headers_delete rest name
      else (k, v) :: headers_set rest name value
  end.

(** A record of headers given as a plain object literal. *)
Definition headers_of_record (r : list (jsstring * jsstring)) : Headers :=
  fold_left (fun h kv => headers_append h (fst kv) (snd kv)) r [].

(** Conversion of a nullable string where a string is required: null
    becomes the four characters of its name. *)
Definition ToString (v : option jsstring) : jsstring :=
  match v with
  | Some s => s
  | None => js "null"
  end.

(** Truthiness of a possibly missing string. *)
Definition truthy (v : option jsstring) : bool :=
  match v with
  | Some (_ :: _) => true
  | _ => false
  end.

(** [request.cf] *)
Record CfProperties : Type := { country : option jsstring; colo : option jsstring }.

(** The incoming request; [url_origin] and [url_search] are the [origin]
    and [search] of [new URL(request.url)]. *)
Record Request : Type := {
  method : jsstring;
  url_origin : jsstring;
  url_search : jsstring;
  req_headers : Headers;
  cf : option CfProperties
}.

(** The second argument of [new Request(request, init)]. *)
Record RequestInit : Type := { redirect : jsstring; init_headers : jsobject }.

(** What the upstream server answered. *)
Record UpstreamResponse : Type := {
  up_status : N;
  up_statusText : jsstring;
  up_headers : Headers;
  up_body : list N
}.

Inductive Body : Type :=
| NoBody
| TextBody (text : jsstring)
| BufferBody (bytes : list N).

Record Response : Type := {
  status : N;
  statusText : jsstring;
  res_headers : Headers;
  body : Body
}.

Definition null_body_status (st : N) : bool :=
  existsb (N.eqb st) [101; 103; 204; 205; 304].

(** [new Response(body, {status, statusText, headers})] as the Fetch
    standard initialises a response: the status must lie in 200..599, a
    null-body status admits no body, and a text body brings its content
    type when the headers name none. *)
Definition Response_new (b : Body) (st : N) (stText : jsstring) (h : Headers)
  : result Response :=
  if (st <? 200) || (599 <? st) then Throw RangeError
  else
    match b with
    | NoBody => Ok {| status := st; statusText := stText; res_headers := h; body := b |}
    | TextBody _ =>
        if null_body_status st then Throw TypeError
        else Ok {| status := st; statusText := stText;
                   res_headers :=
                     if headers_has h (js "content-type") then h
                     else headers_append h (js "content-type") (js "text/plain;charset=UTF-8");
                   body := b |}
    | BufferBody _ =>
        if null_body_status st then Throw TypeError
        else Ok {| status := st; statusText := stText; res_headers := h; body := b |}
    end.

(** The worker's bindings. *)
Record Env : Type := {
  WHITELIST_URLS : option jsstring;
  BLACKLIST_URLS : option jsstring;
  WHITELIST_ORIGINS : option jsstring;
  BLACKLIST_ORIGINS : option jsstring
}.

(** What the worker takes from its host.
    - [regexp_test src s] is [new RegExp(src, 'i').test(s)];
    - [canonicalize] is the case folding that engine applies;
    - [number_to_string] renders the number a JSON lexeme denotes;
    - [upstream url request init] is
      [fetch(url, new Request(request, init))]. *)
Record Platform : Type := {
  canonicalize : N -> N;
  regexp_test : jsstring -> jsstring -> result bool;
  number_to_string : jsstring -> jsstring;
  upstream : jsstring -> Request -> RequestInit -> result UpstreamResponse
}.

(** The engine agrees with the fragment wherever the fragment speaks. *)
Definition engine_conforms (P : Platform) : Prop :=
  forall src s,
    match RegExp.parse src with
    | RegExp.Parsed r => regexp_test P src s = Ok (RegExp.test (canonicalize P) r s)
    | RegExp.Malformed => regexp_test P src s = Throw SyntaxError
    | RegExp.Outside => True
    end.

(* ================================================================== *)
(** ** src/index.js *)
(* ================================================================== *)

(** WhiteSpace and LineTerminator, as [trim] removes them. *)
Definition is_space (c : N) : bool :=
  existsb (N.eqb c) [9; 10; 11; 12; 13; 32; 160; 5760; 8232; 8233; 8239; 8287; 12288; 65279]
  || ((8192 <=? c) && (c <=? 8202)).

Fixpoint trim_start (s : jsstring) : jsstring :=
  match s with
  | c :: rest => if is_space c then trim_start rest else s
  | [] => []
  end.

Definition trim (s : jsstring) : jsstring := rev (trim_start (rev (trim_start s))).

(** [s.split(sep)] for a one-character separator. *)
Fixpoint split (sep : N) (s : jsstring) : list jsstring :=
  match s with
  | [] => [[]]
  | c :: rest =>
      if c =? sep then [] :: split sep rest
      else
        match split sep rest with
        | p :: ps => (c :: p) :: ps
        | [] => [[c]]
        end
  end.

Definition is_empty (s : jsstring) : bool :=
  match s with [] => true | _ :: _ => false end.

Definition parseList (envVar : option jsstring) (defaultValue : list jsstring)
  : list jsstring :=
  match envVar with
  | None => defaultValue
  | Some v =>
      if is_empty v || is_empty (trim v) then defaultValue
      else filter (fun item => negb (is_empty item)) (map trim (split 44 v))
  end.

(** Escape the characters [. + ^ $ { } ( ) | [ ] \] with a backslash, then
    turn every [*] into [.*]. *)
Definition special (c : N) : bool :=
  existsb (N.eqb c) [46; 43; 94; 36; 123; 125; 40; 41; 124; 91; 93; 92].

Definition wildcardToRegex (pattern : jsstring) : jsstring :=
  flat_map (fun c => if c =? 42 then [46; 42] else [c])
    (flat_map (fun c => if special c then [92; c] else [c]) pattern).

Record AccessLists : Type := {
  whitelistUrls : list jsstring;
  blacklistUrls : list jsstring;
  whitelistOrigins : list jsstring;
  blacklistOrigins : list jsstring
}.

Definition getAccessLists (env : option Env) : AccessLists :=
  {| whitelistUrls := parseList (match env with Some e => WHITELIST_URLS e | None => None end) [];
     blacklistUrls := parseList (match env with Some e => BLACKLIST_URLS e | None => None end) [];
     whitelistOrigins := parseList (match env with Some e => WHITELIST_ORIGINS e | None => None end) [];
     blacklistOrigins := parseList (match env with Some e => BLACKLIST_ORIGINS e | None => None end) [] |}.

(** [listing.some(f)] for a callback that may throw. *)
Fixpoint some {A : Type} (f : A -> result bool) (l : list A) : result bool :=
  match l with
  | [] => Ok false
  | x :: rest => b <- f x ;; if b then Ok true else some f rest
  end.

(** [key.match(pattern) === null], for a pattern of the fragment. *)
Definition match_null (key pattern : jsstring) : bool :=
  match RegExp.parse pattern with
  | RegExp.Parsed r => negb (RegExp.test (fun c => c) r key)
  | _ => false
  end.

Definition nl : jsstring := [10].

Section Worker.
Variable P : Platform.

(** The callback of [listing.some] in [isMatched]. *)
Definition pattern_test (uri pattern : jsstring) : result bool :=
  if includes 42 pattern
  then regexp_test P (94 :: wildcardToRegex pattern ++ [36]) uri
  else regexp_test P pattern uri.

Definition isMatched (uri : option jsstring) (listing : list jsstring) : result bool :=
  match uri with
  | Some (c :: u) =>
      match listing with
      | [] => Ok true
      | _ :: _ => some (pattern_test (c :: u)) listing
      end
  | _ => Ok (match listing with [] => true | _ :: _ => false end)
  end.

(** [nonEmpty && test], evaluated left to right. *)
Definition guarded (listing : list jsstring) (test : result bool) : result bool :=
  match listing with
  | [] => Ok false
  | _ :: _ => test
  end.

Definition isAccessAllowed (targetUrl originHeader : option jsstring)
           (accessLists : AccessLists) : result bool :=
  b1 <- guarded (blacklistOrigins accessLists)
          (isMatched originHeader (blacklistOrigins accessLists)) ;;
  if b1 then Ok false else
  b2 <- guarded (blacklistUrls accessLists)
          (isMatched targetUrl (blacklistUrls accessLists)) ;;
  if b2 then Ok false else
  b3 <- guarded (whitelistOrigins accessLists)
          (m <- isMatched originHeader (whitelistOrigins accessLists) ;; Ok (negb m)) ;;
  if b3 then Ok false else
  b4 <- guarded (whitelistUrls accessLists)
          (m <- isMatched targetUrl (whitelistUrls accessLists) ;; Ok (negb m)) ;;
  if b4 then Ok false else
  Ok true.

(** The closure [setupCORSHeaders] of a request. *)
Definition setupCORSHeaders (request : Request) (headers : Headers) : Headers :=
  let headers :=
    headers_set headers (js "Access-Control-Allow-Origin")
      (ToString (headers_get (req_headers request) (js "Origin"))) in
  if str_eqb (method request) (js "OPTIONS") then
    let headers :=
      headers_set headers (js "Access-Control-Allow-Methods")
        (ToString (headers_get (req_headers request) (js "access-control-request-method"))) in
    let requestedHeaders :=
      headers_get (req_headers request) (js "access-control-request-headers") in
    let headers :=
      if truthy requestedHeaders
      then headers_set headers (js "Access-Control-Allow-Headers") (ToString requestedHeaders)
      else headers in
    headers_delete headers (js "X-Content-Type-Options")
  else headers.

(** [customHeaders] after the [try]: null without the header, the parsed
    value when parsing succeeds, the raw text when it fails. *)
Definition customHeaders_of (request : Request) : jsvalue :=
  match headers_get (req_headers request) (js "x-cors-headers") with
  | None => JNull
  | Some raw =>
      match JSON.parse raw with
      | Ok v => v
      | Throw _ => JStr raw
      end
  end.

Definition is_null (v : jsvalue) : bool :=
  match v with JNull => true | _ => false end.

(** The object [filteredHeaders] handed to [new Request]. *)
Definition filteredHeaders_of (request : Request) (customHeaders : jsvalue) : jsobject :=
  let filteredHeaders :=
    fold_left
      (fun o kv =>
         let key := fst kv in
         if match_null key (js "^origin")
            && match_null key (js "eferer")
            && match_null key (js "^cf-")
            && match_null key (js "^x-forw")
            && match_null key (js "^x-cors-headers")
         then obj_set key (JStr (snd kv)) o
         else o)
      (headers_entries (req_headers request)) [] in
  if is_null customHeaders then filteredHeaders
  else
    fold_left (fun o entry => obj_set (fst entry) (snd entry) o)
      (Object_entries customHeaders) filteredHeaders.

(** The text of the informational page. *)
Definition info_page (request : Request) (customHeaders : jsvalue) : jsstring :=
  let originHeader := headers_get (req_headers request) (js "Origin") in
  let connectingIp := headers_get (req_headers request) (js "CF-Connecting-IP") in
  let country := match cf request with Some c => country c | None => None end in
  let colo := match cf request with Some c => colo c | None => None end in
  js "CLOUDFLARE-CORS-ANYWHERE" ++ nl ++ nl ++
  js "Source:" ++ nl ++ js "https://github.com/Zibri/cloudflare-cors-anywhere" ++ nl ++ nl ++
  js "Usage:" ++ nl ++
  url_origin request ++ js "/?uri" ++ nl ++ nl ++
  js "Limits: 100,000 requests/day" ++ nl ++
  js "          1,000 requests/10 minutes" ++ nl ++ nl ++
  match originHeader with
  | Some o => js "Origin: " ++ o ++ nl
  | None => []
  end ++
  js "IP: " ++ ToString connectingIp ++ nl ++
  (if truthy country then js "Country: " ++ ToString country ++ nl else []) ++
  (if truthy colo then js "Datacenter: " ++ ToString colo ++ nl else []) ++
  nl ++
  (if is_null customHeaders then []
   else nl ++ js "x-cors-headers: " ++ JSON.stringify (number_to_string P) customHeaders).

Definition forbidden_page : jsstring :=
  js "Create your own CORS proxy</br>" ++ nl ++
  js "<a href='https://github.com/Zibri/cloudflare-cors-anywhere'>https://github.com/Zibri/cloudflare-cors-anywhere</a></br>" ++ nl.

(** The [fetch] handler of the worker. *)
Definition fetch (request : Request) (env : option Env) : result Response :=
  let isPreflightRequest := str_eqb (method request) (js "OPTIONS") in
  let accessLists := getAccessLists env in
  once <- URI.decodeURIComponent (substr1 (url_search request)) ;;
  targetUrl <- URI.decodeURIComponent once ;;
  let originHeader := headers_get (req_headers request) (js "Origin") in
  allowed <- isAccessAllowed (Some targetUrl) originHeader accessLists ;;
  if allowed then
    let customHeaders := customHeaders_of request in
    if startsWith (js "?") (url_search request) then
      let filteredHeaders := filteredHeaders_of request customHeaders in
      response <- upstream P targetUrl request
                    {| redirect := js "follow"; init_headers := filteredHeaders |} ;;
      let responseHeaders := up_headers response in
      let exposedHeaders :=
        map fst (headers_entries (up_headers response)) ++ [js "cors-received-headers"] in
      let allResponseHeaders :=
        fold_left (fun o kv => obj_set (fst kv) (JStr (snd kv)) o)
          (headers_entries (up_headers response)) [] in
      let responseHeaders := setupCORSHeaders request responseHeaders in
      let responseHeaders :=
        headers_set responseHeaders (js "Access-Control-Expose-Headers")
          (join (js ",") exposedHeaders) in
      let responseHeaders :=
        headers_set responseHeaders (js "cors-received-headers")
          (JSON.stringify (number_to_string P) (JObj allResponseHeaders)) in
      Response_new
        (if isPreflightRequest then NoBody else BufferBody (up_body response))
        (if isPreflightRequest then 200 else up_status response)
        (if isPreflightRequest then js "OK" else up_statusText response)
        responseHeaders
    else
      let responseHeaders := setupCORSHeaders request [] in
      Response_new (TextBody (info_page request customHeaders)) 200 [] responseHeaders
  else
    Response_new (TextBody forbidden_page) 403 (js "Forbidden")
      (headers_of_record [(js "Content-Type", js "text/html")]).
End Worker.

(* ================================================================== *)
(** ** A platform to run the worker on, and the notions of the theorems *)
(* ================================================================== *)

(** An engine that is the fragment itself: ASCII case folding, and a
    SyntaxError for every source the fragment does not accept. *)
Definition fragment_engine (src s : jsstring) : result bool :=
  match RegExp.parse src with
  | RegExp.Parsed r => Ok (RegExp.test ascii_upper r s)
  | _ => Throw SyntaxError
  end.

Definition model_platform
           (up : jsstring -> Request -> RequestInit -> result UpstreamResponse)
  : Platform :=
  {| canonicalize := ascii_upper;
     regexp_test := fragment_engine;
     number_to_string := fun lexeme => lexeme;
     upstream := up |}.

(** A platform whose network is down. *)
Definition offline : Platform := model_platform (fun _ _ _ => Throw NetworkError).

(** Zero or more characters that [span] admits, then [k]. *)
Fixpoint skip_run (span : N -> bool) (k : jsstring -> bool) (s : jsstring) : bool :=
  k s ||
  match s with
  | x :: s' => span x && skip_run span k s'
  | [] => false
  end.

(** Wildcard matching as the specification words it: every character of
    the pattern but [*] stands for itself, compared after canonicalisation;
    [*] stands for any run of characters that [span] admits; the whole
    subject must be matched. *)
Fixpoint glob (span : N -> bool) (canon : N -> N) (p s : jsstring) : bool :=
  match p with
  | [] => is_empty s
  | c :: p' =>
      if c =? 42 then skip_run span (glob span canon p') s
      else
        match s with
        | x :: s' => (canon x =? canon c) && glob span canon p' s'
        | [] => false
        end
  end.

(** The terms a wildcard pattern without [?] turns into, and the whole
    anchored expression. *)
Definition glob_terms (p : jsstring) : list RegExp.regex :=
  map (fun c => if c =? 42 then RegExp.Star RegExp.Any else RegExp.Chr c) p.

Definition glob_regex (p : jsstring) : RegExp.regex :=
  RegExp.Cat RegExp.Bol
    (fold_right RegExp.Cat (RegExp.Cat RegExp.Eol RegExp.Eps) (glob_terms p)).

Definition any_character (c : N) : bool := true.
Definition not_line_terminator (c : N) : bool := negb (RegExp.line_terminator c).

(** The informational page before and after the place of its Origin line. *)
Definition info_head (request : Request) : jsstring :=
  js "CLOUDFLARE-CORS-ANYWHERE" ++ nl ++ nl ++
  js "Source:" ++ nl ++ js "https://github.com/Zibri/cloudflare-cors-anywhere" ++ nl ++ nl ++
  js "Usage:" ++ nl ++
  url_origin request ++ js "/?uri" ++ nl ++ nl ++
  js "Limits: 100,000 requests/day" ++ nl ++
  js "          1,000 requests/10 minutes" ++ nl ++ nl.

Definition info_tail (P : Platform) (request : Request) (customHeaders : jsvalue) : jsstring :=
  js "IP: " ++ ToString (headers_get (req_headers request) (js "CF-Connecting-IP")) ++ nl ++
  (if truthy (match cf request with Some c => country c | None => None end)
   then js "Country: " ++ ToString (match cf request with Some c => country c | None => None end) ++ nl
   else []) ++
  (if truthy (match cf request with Some c => colo c | None => None end)
   then js "Datacenter: " ++ ToString (match cf request with Some c => colo c | None => None end) ++ nl
   else []) ++
  nl ++
  (if is_null customHeaders then []
   else nl ++ js "x-cors-headers: " ++ JSON.stringify (number_to_string P) customHeaders).

(** Sample upstream answers and platforms that return them. *)
Definition upstream_404 : UpstreamResponse :=
  {| up_status := 404;
     up_statusText := js "Not Found";
     up_headers := [(js "access-control-allow-headers", js "x-upstream");
                    (js "content-type", js "text/plain");
                    (js "x-content-type-options", js "nosniff")];
     up_body := js "no" |}.

Definition online (u : UpstreamResponse) : Platform :=
  model_platform (fun _ _ _ => Ok u).

Definition upstream_200 : UpstreamResponse :=
  {| up_status := 200;
     up_statusText := js "OK";
     up_headers := [(js "content-type", js "application/json");
                    (js "set-cookie", js "sid=1")];
     up_body := js "{}" |}.

(** An ASCII literal between quotation marks, for writing JSON text. *)
Definition quoted (s : string) : jsstring := 34 :: js s ++ [34].

(** An upstream answer with a header named [__proto__]. *)
Definition upstream_proto : UpstreamResponse :=
  {| up_status := 200;
     up_statusText := js "OK";
     up_headers := [(js "__proto__", js "x"); (js "content-type", js "text/plain")];
     up_body := js "ok" |}.

(** [k1] may stand before [k2] among the properties of an object: the
    keys differ, array indices ascend, and array indices come first. *)
Definition key_before (k1 k2 : jsstring) : Prop :=
  str_eqb k1 k2 = false
  /\ match array_index k1, array_index k2 with
     | Some i, Some j => i <= j
     | Some _, None => True
     | None, Some _ => False
     | None, None => True
     end.

(** The properties are in the order in which the platform enumerates them. *)
Definition ordered (o : jsobject) : Prop :=
  StronglySorted (fun a b => key_before (fst a) (fst b)) o.

(** Every property holds a string. *)
Definition all_strings (o : jsobject) : Prop :=
  Forall (fun kv => exists s, snd kv = JStr s) o.

(** The object a list of string-valued entries builds by assignment. *)
Definition assign_all (entries : list (jsstring * jsstring)) (o : jsobject) : jsobject :=
  fold_left (fun o kv => obj_set (fst kv) (JStr (snd kv)) o) entries o.

(** The JSON text of the members of an object, as [JSON.stringify] joins them. *)
Definition members_text (num : jsstring -> jsstring) (o : jsobject) : jsstring :=
  join [44] (map (fun kv => JSON.quote (fst kv) ++ 58 :: JSON.stringify num (snd kv)) o).

(** The object that assigning a list of entries one after the other to
    [o] leaves. *)
Definition overlay (entries : list (jsstring * jsvalue)) (o : jsobject) : jsobject :=
  fold_left (fun o entry => obj_set (fst entry) (snd entry) o) entries o.

(** A header name that one of the five exclusion rules of the handler hits. *)
Fixpoint contains (p s : jsstring) : bool :=
  startsWith p s ||
  match s with
  | [] => false
  | _ :: s' => contains p s'
  end.

Definition excluded (key : jsstring) : bool :=
  startsWith (js "origin") key
  || contains (js "eferer") key
  || startsWith (js "cf-") key
  || startsWith (js "x-forw") key
  || startsWith (js "x-cors-headers") key.

(** The expression that matches the characters of [lit] one after the other. *)
Definition lit_regex (lit : jsstring) : RegExp.regex :=
  fold_right RegExp.Cat RegExp.Eps (map RegExp.Chr lit).

(** The incoming headers that the five exclusion rules let through. *)
Definition retained (request : Request) : list (jsstring * jsstring) :=
  filter (fun kv => negb (excluded (fst kv))) (headers_entries (req_headers request)).

(** A binding that [parseList] reads as no list: unset, or nothing but
    white space. *)
Definition blank (v : option jsstring) : Prop :=
  match v with
  | None => True
  | Some s => trim s = []
  end.

(** An item as [parseList] leaves it: not empty, without comma, without
    white space at either end. *)
Definition list_item (item : jsstring) : Prop :=
  item <> [] /\ includes 44 item = false /\ trim item = item.

(** The platform [P] with another network. *)
Definition with_upstream (P : Platform)
           (up : jsstring -> Request -> RequestInit -> result UpstreamResponse) : Platform :=
  {| canonicalize := canonicalize P;
     regexp_test := regexp_test P;
     number_to_string := number_to_string P;
     upstream := up |}.

(** [p] read at the start of [s] with every character standing for itself
    up to case, except the dot, which stands for any character but a line
    terminator. *)
Fixpoint dotted_prefix (canon : N -> N) (p s : jsstring) : bool :=
  match p, s with
  | [], _ => true
  | c :: p', x :: s' =>
      (if c =? 46 then negb (RegExp.line_terminator x) else canon x =? canon c)
      && dotted_prefix canon p' s'
  | _ :: _, [] => false
  end.

(** [p] read that way somewhere in [s]. *)
Fixpoint dotted_anywhere (canon : N -> N) (p s : jsstring) : bool :=
  dotted_prefix canon p s ||
  match s with
  | [] => false
  | _ :: s' => dotted_anywhere canon p s'
  end.

(** A character of a pattern that uses no regular-expression syntax but
    the dot. *)
Definition plain_char (c : N) : bool := RegExp.pattern_char c || (c =? 46).

Definition plain_terms (p : jsstring) : list RegExp.regex :=
  map (fun c => if c =? 46 then RegExp.Any else RegExp.Chr c) p.

(** The access lists with the origin blacklist emptied. *)
Definition without_origin_blacklist (L : AccessLists) : AccessLists :=
  {| whitelistUrls := whitelistUrls L;
     blacklistUrls := blacklistUrls L;
     whitelistOrigins := whitelistOrigins L;
     blacklistOrigins := [] |}.

(** [s] with each percent sign written as the escape [%25]. *)
Definition escape_percent (s : jsstring) : jsstring :=
  flat_map (fun c => if c =? 37 then js "%25" else [c]) s.

(** The network [up] cut down to the one address [url]. *)
Definition only_at (url : jsstring)
           (up : jsstring -> Request -> RequestInit -> result UpstreamResponse)
  : jsstring -> Request -> RequestInit -> result UpstreamResponse :=
  fun target request init =>
    if str_eqb target url then up target request init else Throw NetworkError.

(** An upstream answer whose headers arrive out of order, one name twice. *)
Definition upstream_unsorted : UpstreamResponse :=
  {| up_status := 200;
     up_statusText := js "OK";
     up_headers := [(js "X-B", js "1"); (js "Vary", js "accept");
                    (js "content-type", js "text/plain"); (js "vary", js "origin");
                    (js "a", js "2")];
     up_body := js "ok" |}.

(** The four checks of the access policy, as outcomes of [isMatched]. *)
Definition blacklisted (P : Platform) (x : option jsstring) (l : list jsstring) : Prop :=
  l <> [] /\ isMatched P x l = Ok true.
Definition clear_of (P : Platform) (x : option jsstring) (l : list jsstring) : Prop :=
  l = [] \/ isMatched P x l = Ok false.
Definition admitted_by (P : Platform) (x : option jsstring) (l : list jsstring) : Prop :=
  l = [] \/ isMatched P x l = Ok true.
Definition left_out_by (P : Platform) (x : option jsstring) (l : list jsstring) : Prop :=
  l <> [] /\ isMatched P x l = Ok false.

(* ================================================================== *)
(** ** Strings *)
(* ================================================================== *)

#[local] Arguments N.mul : simpl never.
#[local] Arguments N.add : simpl never.
#[local] Arguments N.sub : simpl never.
#[local] Arguments N.div : simpl never.
#[local] Arguments N.modulo : simpl never.

Lemma str_eqb_refl (a : jsstring) : str_eqb a a = true.
Proof.
  induction a as [|x a IH]; simpl; [reflexivity|].
  now rewrite N.eqb_refl, IH.
Qed.

Lemma str_eqb_eq (a b : jsstring) : str_eqb a b = true <-> a = b.
Proof.
  split.
  - revert b; induction a as [|x a IH]; intros [|y b]; simpl; try congruence.
    intros H. apply andb_true_iff in H as [Hx Hr].
    apply N.eqb_eq in Hx. apply IH in Hr. congruence.
  - intros ->. apply str_eqb_refl.
Qed.

Lemma str_eqb_neq (a b : jsstring) : str_eqb a b = false <-> a <> b.
Proof.
  split.
  - intros H E. apply str_eqb_eq in E. congruence.
  - intros H. destruct (str_eqb a b) eqn:E; [|reflexivity].
    apply str_eqb_eq in E. contradiction.
Qed.

Lemma same_name_refl (a : jsstring) : same_name a a = true.
Proof. apply str_eqb_refl. Qed.

Lemma same_name_sym (a b : jsstring) : same_name a b = same_name b a.
Proof.
  unfold same_name. destruct (str_eqb (lower a) (lower b)) eqn:E.
  - apply str_eqb_eq in E. rewrite E. symmetry. apply str_eqb_refl.
  - symmetry. apply str_eqb_neq. apply str_eqb_neq in E. congruence.
Qed.

Lemma same_name_trans (a b c : jsstring) :
  same_name a b = true -> same_name b c = true -> same_name a c = true.
Proof.
  unfold same_name. intros H1 H2.
  apply str_eqb_eq in H1. apply str_eqb_eq in H2.
  apply str_eqb_eq. congruence.
Qed.

(** Two names the first of which is hit by [k] and the second is not. *)
Lemma same_name_split (k a b : jsstring) :
  same_name a b = false -> same_name k a = true -> same_name k b = false.
Proof.
  intros Hab Hka. destruct (same_name k b) eqn:E; [|reflexivity].
  rewrite same_name_sym in Hka.
  rewrite (same_name_trans a k b Hka E) in Hab. discriminate.
Qed.

(* ================================================================== *)
(** ** The access policy (isAccessAllowed) *)
(* ================================================================== *)

Section Policy.
Variable P : Platform.
Variables targetUrl originHeader : option jsstring.
Variable L : AccessLists.

Lemma guarded_blacklisted x l :
  blacklisted P x l -> guarded l (isMatched P x l) = Ok true.
Proof.
  intros [Hne Hm]. destruct l; [contradiction|]. exact Hm.
Qed.

Lemma guarded_clear x l :
  clear_of P x l -> guarded l (isMatched P x l) = Ok false.
Proof.
  intros [->|Hm]; [reflexivity|]. destruct l; [reflexivity|]. exact Hm.
Qed.

Lemma guarded_admitted x l :
  admitted_by P x l ->
  guarded l (m <- isMatched P x l ;; Ok (negb m)) = Ok false.
Proof.
  intros [->|Hm]; [reflexivity|]. destruct l; [reflexivity|].
  simpl. now rewrite Hm.
Qed.

Lemma guarded_left_out x l :
  left_out_by P x l ->
  guarded l (m <- isMatched P x l ;; Ok (negb m)) = Ok true.
Proof.
  intros [Hne Hm]. destruct l; [contradiction|]. simpl. now rewrite Hm.
Qed.

Lemma guarded_false_inv x l :
  guarded l (isMatched P x l) = Ok false -> clear_of P x l.
Proof.
  destruct l; [now left|]. intros H. now right.
Qed.

Lemma guarded_neg_false_inv x l :
  guarded l (m <- isMatched P x l ;; Ok (negb m)) = Ok false -> admitted_by P x l.
Proof.
  destruct l as [|p l]; [now left|]. simpl. intros H. right.
  destruct (isMatched P x (p :: l)) as [[|]|e]; simpl in H; congruence.
Qed.

(** What [isAccessAllowed] returns when it allows. *)
Lemma isAccessAllowed_true_inv :
  isAccessAllowed P targetUrl originHeader L = Ok true ->
  clear_of P originHeader (blacklistOrigins L)
  /\ clear_of P targetUrl (blacklistUrls L)
  /\ admitted_by P originHeader (whitelistOrigins L)
  /\ admitted_by P targetUrl (whitelistUrls L).
Proof.
  unfold isAccessAllowed.
  destruct (guarded (blacklistOrigins L) _) as [[|]|e1] eqn:E1; simpl; try discriminate.
  destruct (guarded (blacklistUrls L) _) as [[|]|e2] eqn:E2; simpl; try discriminate.
  destruct (guarded (whitelistOrigins L) _) as [[|]|e3] eqn:E3; simpl; try discriminate.
  destruct (guarded (whitelistUrls L) _) as [[|]|e4] eqn:E4; simpl; try discriminate.
  intros _. repeat split.
  - now apply guarded_false_inv.
  - now apply guarded_false_inv.
  - now apply guarded_neg_false_inv.
  - now apply guarded_neg_false_inv.
Qed.
End Policy.

(** C1. [isAccessAllowed] runs the checks blacklistOrigins, blacklistUrls,
    whitelistOrigins, whitelistUrls in that order and denies at the first
    one that fails, whatever the later lists hold: a blacklisted origin is
    denied even when a whitelist admits it, and access is allowed exactly
    when all four checks pass. *)
Theorem isAccessAllowed_order (P : Platform) (targetUrl originHeader : option jsstring)
        (L : AccessLists) :
  (blacklisted P originHeader (blacklistOrigins L) ->
     isAccessAllowed P targetUrl originHeader L = Ok false)
  /\ (clear_of P originHeader (blacklistOrigins L) ->
      blacklisted P targetUrl (blacklistUrls L) ->
      isAccessAllowed P targetUrl originHeader L = Ok false)
  /\ (clear_of P originHeader (blacklistOrigins L) ->
      clear_of P targetUrl (blacklistUrls L) ->
      left_out_by P originHeader (whitelistOrigins L) ->
      isAccessAllowed P targetUrl originHeader L = Ok false)
  /\ (clear_of P originHeader (blacklistOrigins L) ->
      clear_of P targetUrl (blacklistUrls L) ->
      admitted_by P originHeader (whitelistOrigins L) ->
      left_out_by P targetUrl (whitelistUrls L) ->
      isAccessAllowed P targetUrl originHeader L = Ok false)
  /\ (blacklisted P originHeader (blacklistOrigins L) ->
      whitelistOrigins L <> [] ->
      isMatched P originHeader (whitelistOrigins L) = Ok true ->
      isAccessAllowed P targetUrl originHeader L = Ok false)
  /\ (isAccessAllowed P targetUrl originHeader L = Ok true <->
      clear_of P originHeader (blacklistOrigins L)
      /\ clear_of P targetUrl (blacklistUrls L)
      /\ admitted_by P originHeader (whitelistOrigins L)
      /\ admitted_by P targetUrl (whitelistUrls L)).
Proof.
  assert (D1 : blacklisted P originHeader (blacklistOrigins L) ->
               isAccessAllowed P targetUrl originHeader L = Ok false).
  { intros H. unfold isAccessAllowed. now rewrite (guarded_blacklisted P _ _ H). }
  split; [exact D1|].
  split.
  { intros C1 B2. unfold isAccessAllowed.
    rewrite (guarded_clear P _ _ C1). simpl. now rewrite (guarded_blacklisted P _ _ B2). }
  split.
  { intros C1 C2 O3. unfold isAccessAllowed.
    rewrite (guarded_clear P _ _ C1). simpl. rewrite (guarded_clear P _ _ C2). simpl.
    now rewrite (guarded_left_out P _ _ O3). }
  split.
  { intros C1 C2 A3 O4. unfold isAccessAllowed.
    rewrite (guarded_clear P _ _ C1). simpl. rewrite (guarded_clear P _ _ C2). simpl.
    rewrite (guarded_admitted P _ _ A3). simpl.
    now rewrite (guarded_left_out P _ _ O4). }
  split.
  { intros B _ _. now apply D1. }
  split.
  - apply isAccessAllowed_true_inv.
  - intros (C1 & C2 & A3 & A4). unfold isAccessAllowed.
    rewrite (guarded_clear P _ _ C1). simpl. rewrite (guarded_clear P _ _ C2). simpl.
    rewrite (guarded_admitted P _ _ A3). simpl.
    now rewrite (guarded_admitted P _ _ A4).
Qed.

(** A blacklisted origin is denied although the origin whitelist admits it
    and the URL lists hold patterns that no engine accepts. *)
Lemma isAccessAllowed_order_witness :
  let L := {| whitelistUrls := [js "("];
              blacklistUrls := [js "*a"; js "("];
              whitelistOrigins := [js "https://*.example.com"];
              blacklistOrigins := [js "https://evil.*"] |} in
  isMatched offline (Some (js "https://evil.example.com")) (whitelistOrigins L) = Ok true
  /\ isAccessAllowed offline (Some (js "https://target.test/")) (Some (js "https://evil.example.com")) L
     = Ok false.
Proof.
  split; [vm_compute; reflexivity|].
  apply (proj1 (isAccessAllowed_order offline _ _ _)).
  split; [discriminate | vm_compute; reflexivity].
Defined.

(* ================================================================== *)
(** ** The target URL (decodeURIComponent) *)
(* ================================================================== *)

Lemma hexval_not_percent (h a : N) : URI.hexval h = Some a -> (h =? 37) = false.
Proof.
  unfold URI.hexval. intros H. apply N.eqb_neq. intros ->. discriminate.
Qed.

(** Decoding never gets past a [%] that two hexadecimal digits do not follow. *)
Lemma decode_bad_escape (n : nat) :
  forall s pend,
    (List.length s <= n)%nat ->
    URI.has_bad_escape s = true ->
    URI.decode pend s = Throw URIError.
Proof.
  induction n as [|n IH]; intros s pend Hlen Hbad.
  - destruct s; [discriminate | simpl in Hlen; lia].
  - destruct s as [|c rest0]; [discriminate|].
    simpl in Hbad. simpl.
    destruct (c =? 37) eqn:Ec.
    + destruct rest0 as [|h [|l rest]]; try reflexivity.
      destruct (URI.hexval h) as [a|] eqn:Eh; [|reflexivity].
      destruct (URI.hexval l) as [b|] eqn:El; [|reflexivity].
      simpl in Hbad.
      rewrite (hexval_not_percent _ _ Eh), (hexval_not_percent _ _ El) in Hbad.
      simpl in Hbad.
      assert (Hrest : forall pend', URI.decode pend' rest = Throw URIError).
      { intros pend'. apply IH; [simpl in Hlen; lia | exact Hbad]. }
      destruct pend as [[[|[|k]] acc]|].
      * reflexivity.
      * destruct (URI.utf8_code_point (acc ++ [16 * a + b])); [|reflexivity].
        now rewrite Hrest.
      * apply Hrest.
      * destruct (16 * a + b <? 128).
        -- now rewrite Hrest.
        -- destruct (URI.sequence_length (16 * a + b)); [reflexivity | apply Hrest].
    + simpl in Hbad. destruct pend; [reflexivity|].
      rewrite (IH rest0 None); [reflexivity | simpl in Hlen; lia | exact Hbad].
Qed.

Lemma decodeURIComponent_bad_escape (s : jsstring) :
  URI.has_bad_escape s = true -> URI.decodeURIComponent s = Throw URIError.
Proof.
  intros H. unfold URI.decodeURIComponent.
  now apply (decode_bad_escape (List.length s)).
Qed.

(** C9. When the query string holds a [%] that two hexadecimal digits do
    not follow, decoding the target throws a URIError before the access
    lists are looked at: whatever the bindings, the headers and the
    platform, the handler returns no response and ends in that error. *)
Theorem fetch_bad_escape_throws (P : Platform) (request : Request) (env : option Env) :
  URI.has_bad_escape (substr1 (url_search request)) = true ->
  fetch P request env = Throw URIError.
Proof.
  intros H. unfold fetch.
  now rewrite (decodeURIComponent_bad_escape _ H).
Qed.

(** The request [GET /?%], with access lists that would themselves make the
    policy check throw. *)
Lemma fetch_bad_escape_throws_witness :
  let request := {| method := js "GET"; url_origin := js "https://proxy.test";
                    url_search := js "?%"; req_headers := []; cf := None |} in
  let env := Some {| WHITELIST_URLS := Some (js "("); BLACKLIST_URLS := None;
                     WHITELIST_ORIGINS := None; BLACKLIST_ORIGINS := Some (js "*") |} in
  URI.has_bad_escape (substr1 (url_search request)) = true
  /\ fetch offline request env = Throw URIError.
Proof.
  split; [reflexivity|].
  apply (fetch_bad_escape_throws offline); reflexivity.
Defined.

(* ================================================================== *)
(** ** The rejection *)
(* ================================================================== *)

(** C10. A request the access policy denies gets status 403 Forbidden, the
    fixed HTML page, and a header list holding Content-Type: text/html and
    nothing else: no Access-Control header of any name. *)
Theorem fetch_denied (P : Platform) (request : Request) (env : option Env)
        (once targetUrl : jsstring) :
  URI.decodeURIComponent (substr1 (url_search request)) = Ok once ->
  URI.decodeURIComponent once = Ok targetUrl ->
  isAccessAllowed P (Some targetUrl) (headers_get (req_headers request) (js "Origin"))
    (getAccessLists env) = Ok false ->
  fetch P request env =
    Ok {| status := 403;
          statusText := js "Forbidden";
          res_headers := [(js "content-type", js "text/html")];
          body := TextBody forbidden_page |}
  /\ (forall name, startsWith (js "access-control-") (lower name) = true ->
        exists resp, fetch P request env = Ok resp
                     /\ headers_get (res_headers resp) name = None).
Proof.
  intros H1 H2 H3.
  assert (E : fetch P request env =
    Ok {| status := 403; statusText := js "Forbidden";
          res_headers := [(js "content-type", js "text/html")];
          body := TextBody forbidden_page |}).
  { unfold fetch. rewrite H1. cbn [bind]. rewrite H2. cbn [bind]. rewrite H3.
    cbn [bind]. reflexivity. }
  split; [exact E|].
  intros name Hname. eexists. split; [exact E|].
  cbn [res_headers]. unfold headers_get. cbn [filter fst].
  replace (same_name (js "content-type") name) with false; [reflexivity|].
  symmetry. unfold same_name. apply str_eqb_neq. intros Heq.
  rewrite <- Heq in Hname. vm_compute in Hname. discriminate.
Qed.

(** The scenario of the specification: BLACKLIST_ORIGINS=https://evil.* and
    Origin: https://evil.com. *)
Lemma fetch_denied_witness :
  let request := {| method := js "GET"; url_origin := js "https://proxy.test";
                    url_search := js "?https://httpbin.org/get";
                    req_headers := [(js "origin", js "https://evil.com")];
                    cf := None |} in
  let env := Some {| WHITELIST_URLS := None; BLACKLIST_URLS := None;
                     WHITELIST_ORIGINS := None;
                     BLACKLIST_ORIGINS := Some (js "https://evil.*") |} in
  fetch offline request env =
    Ok {| status := 403;
          statusText := js "Forbidden";
          res_headers := [(js "content-type", js "text/html")];
          body := TextBody forbidden_page |}.
Proof.
  intros request env.
  apply (proj1 (fetch_denied offline request env
                  (js "https://httpbin.org/get") (js "https://httpbin.org/get")
                  eq_refl eq_refl eq_refl)).
Defined.

(* ================================================================== *)
(** ** Header lists *)
(* ================================================================== *)

Lemma ascii_lower_idem (c : N) : ascii_lower (ascii_lower c) = ascii_lower c.
Proof.
  unfold ascii_lower.
  destruct ((65 <=? c) && (c <=? 90)) eqn:E; [|now rewrite E].
  apply andb_true_iff in E as [E1 E2].
  apply N.leb_le in E1. apply N.leb_le in E2.
  replace (c + 32 <=? 90) with false; [now rewrite andb_false_r|].
  symmetry. apply N.leb_gt. lia.
Qed.

Lemma lower_idem (s : jsstring) : lower (lower s) = lower s.
Proof.
  unfold lower. rewrite map_map. apply map_ext. intros c. apply ascii_lower_idem.
Qed.

Lemma same_name_lower_l (a b : jsstring) : same_name (lower a) b = same_name a b.
Proof. unfold same_name. now rewrite lower_idem. Qed.

Lemma headers_get_under (h : Headers) (name : jsstring) :
  headers_get h name =
  match under name h with
  | [] => None
  | found => Some (join (js ", ") (map snd found))
  end.
Proof. reflexivity. Qed.

Lemma under_same (h : Headers) (a b : jsstring) :
  same_name a b = true -> under a h = under b h.
Proof.
  intros Hab. unfold under. apply filter_ext. intros [k v]. cbn [fst].
  destruct (same_name k a) eqn:Ea.
  - symmetry. exact (same_name_trans _ _ _ Ea Hab).
  - destruct (same_name k b) eqn:Eb; [|reflexivity].
    rewrite same_name_sym in Hab.
    rewrite (same_name_trans _ _ _ Eb Hab) in Ea. discriminate.
Qed.

Lemma under_delete_same (h : Headers) (name : jsstring) :
  under name (headers_delete h name) = [].
Proof.
  unfold under, headers_delete.
  induction h as [|[k v] h IH]; [reflexivity|].
  cbn [filter fst]. destruct (same_name k name) eqn:E; cbn [negb filter fst].
  - exact IH.
  - rewrite E. exact IH.
Qed.

Lemma under_delete_other (h : Headers) (name other : jsstring) :
  same_name name other = false ->
  under other (headers_delete h name) = under other h.
Proof.
  intros Hno. unfold under, headers_delete.
  induction h as [|[k v] h IH]; [reflexivity|].
  cbn [filter fst]. destruct (same_name k name) eqn:E; cbn [negb filter fst].
  - rewrite (same_name_split k name other Hno E). exact IH.
  - now rewrite IH.
Qed.

Lemma under_set_same (h : Headers) (name value : jsstring) :
  exists k, under name (headers_set h name value) = [(k, value)].
Proof.
  induction h as [|[k v] h [k' IH]].
  - exists (lower name). cbn [headers_set under filter fst].
    now rewrite same_name_lower_l, same_name_refl.
  - cbn [headers_set]. destruct (same_name k name) eqn:E.
    + exists k. unfold under at 1. cbn [filter fst]. rewrite E.
      f_equal. apply under_delete_same.
    + exists k'. unfold under at 1. cbn [filter fst]. rewrite E. exact IH.
Qed.

Lemma under_set_other (h : Headers) (name value other : jsstring) :
  same_name name other = false ->
  under other (headers_set h name value) = under other h.
Proof.
  intros Hno. induction h as [|[k v] h IH].
  - cbn [headers_set under filter fst]. rewrite same_name_lower_l. now rewrite Hno.
  - cbn [headers_set]. destruct (same_name k name) eqn:E.
    + unfold under at 1 2. cbn [filter fst].
      rewrite (same_name_split k name other Hno E).
      now apply under_delete_other.
    + unfold under at 1 2. cbn [filter fst].
      destruct (same_name k other); [f_equal|]; exact IH.
Qed.

Lemma headers_get_set_same (h : Headers) (name value other : jsstring) :
  same_name name other = true ->
  headers_get (headers_set h name value) other = Some value.
Proof.
  intros Hs. rewrite headers_get_under.
  rewrite <- (under_same _ _ _ Hs).
  destruct (under_set_same h name value) as [k ->]. reflexivity.
Qed.

Lemma headers_get_set_other (h : Headers) (name value other : jsstring) :
  same_name name other = false ->
  headers_get (headers_set h name value) other = headers_get h other.
Proof.
  intros Hno. rewrite !headers_get_under. now rewrite under_set_other.
Qed.

Lemma headers_get_delete_same (h : Headers) (name other : jsstring) :
  same_name name other = true ->
  headers_get (headers_delete h name) other = None.
Proof.
  intros Hs. rewrite headers_get_under.
  rewrite <- (under_same _ _ _ Hs). now rewrite under_delete_same.
Qed.

Lemma headers_get_delete_other (h : Headers) (name other : jsstring) :
  same_name name other = false ->
  headers_get (headers_delete h name) other = headers_get h other.
Proof.
  intros Hno. rewrite !headers_get_under. now rewrite under_delete_other.
Qed.

Lemma headers_get_append_other (h : Headers) (name value other : jsstring) :
  same_name name other = false ->
  headers_get (headers_append h name value) other = headers_get h other.
Proof.
  intros Hno. rewrite !headers_get_under. unfold headers_append, under.
  rewrite filter_app. cbn [filter fst]. rewrite same_name_lower_l, Hno.
  now rewrite app_nil_r.
Qed.

(* ================================================================== *)
(** ** Responses to allowed requests *)
(* ================================================================== *)

(** Rewrites a lookup through the header updates of the handler. *)
Ltac through_updates :=
  repeat first
    [ rewrite headers_get_set_other by reflexivity
    | rewrite headers_get_delete_other by reflexivity
    | rewrite headers_get_append_other by reflexivity ].

Lemma Response_new_preflight (h : Headers) :
  Response_new NoBody 200 (js "OK") h =
  Ok {| status := 200; statusText := js "OK"; res_headers := h; body := NoBody |}.
Proof. reflexivity. Qed.

Lemma setupCORSHeaders_preflight (request : Request) (h : Headers) :
  method request = js "OPTIONS" ->
  setupCORSHeaders request h =
  headers_delete
    (let h1 :=
       headers_set
         (headers_set h (js "Access-Control-Allow-Origin")
            (ToString (headers_get (req_headers request) (js "Origin"))))
         (js "Access-Control-Allow-Methods")
         (ToString (headers_get (req_headers request) (js "access-control-request-method"))) in
     if truthy (headers_get (req_headers request) (js "access-control-request-headers"))
     then headers_set h1 (js "Access-Control-Allow-Headers")
            (ToString (headers_get (req_headers request) (js "access-control-request-headers")))
     else h1)
    (js "X-Content-Type-Options").
Proof.
  intros Hm. unfold setupCORSHeaders. rewrite Hm.
  change (str_eqb (js "OPTIONS") (js "OPTIONS")) with true. reflexivity.
Qed.

(** C6, amended.  An allowed OPTIONS request with a target URL, once the
    upstream has answered, gets status 200 and status text OK whatever the
    upstream status, no body, Access-Control-Allow-Methods equal to the
    request's access-control-request-method (the text null without that
    header), Access-Control-Allow-Headers equal to the request's
    access-control-request-headers when that header is present with a
    non-empty value, and no X-Content-Type-Options. *)
Theorem fetch_preflight (P : Platform) (request : Request) (env : option Env)
        (once targetUrl : jsstring) (u : UpstreamResponse) :
  method request = js "OPTIONS" ->
  startsWith (js "?") (url_search request) = true ->
  URI.decodeURIComponent (substr1 (url_search request)) = Ok once ->
  URI.decodeURIComponent once = Ok targetUrl ->
  isAccessAllowed P (Some targetUrl) (headers_get (req_headers request) (js "Origin"))
    (getAccessLists env) = Ok true ->
  upstream P targetUrl request
    {| redirect := js "follow";
       init_headers := filteredHeaders_of request (customHeaders_of request) |} = Ok u ->
  exists resp,
    fetch P request env = Ok resp
    /\ status resp = 200
    /\ statusText resp = js "OK"
    /\ body resp = NoBody
    /\ headers_get (res_headers resp) (js "Access-Control-Allow-Methods")
       = Some (ToString (headers_get (req_headers request) (js "access-control-request-method")))
    /\ (forall c v,
          headers_get (req_headers request) (js "access-control-request-headers") = Some (c :: v) ->
          headers_get (res_headers resp) (js "Access-Control-Allow-Headers") = Some (c :: v))
    /\ headers_get (res_headers resp) (js "X-Content-Type-Options") = None.
Proof.
  intros Hm Hq H1 H2 Ha Hu.
  unfold fetch. rewrite H1. cbn [bind]. rewrite H2. cbn [bind]. rewrite Ha. cbn [bind].
  rewrite Hq, Hu. cbn [bind].
  rewrite (setupCORSHeaders_preflight request _ Hm).
  rewrite Hm. change (str_eqb (js "OPTIONS") (js "OPTIONS")) with true. cbv iota.
  rewrite Response_new_preflight.
  eexists. split; [reflexivity|]. cbn [status statusText body res_headers].
  repeat split.
  - through_updates.
    destruct (truthy (headers_get (req_headers request) (js "access-control-request-headers")));
      through_updates; now apply headers_get_set_same.
  - intros c v Hv. through_updates. rewrite Hv. cbn [truthy ToString].
    now apply headers_get_set_same.
  - through_updates. now apply headers_get_delete_same.
Qed.

(** OPTIONS /?https://httpbin.org/get with access-control-request-method:
    POST, answered 404 by the upstream. *)
Lemma fetch_preflight_witness :
  let request := {| method := js "OPTIONS"; url_origin := js "https://proxy.test";
                    url_search := js "?https://httpbin.org/get";
                    req_headers := [(js "access-control-request-headers", js "x-token");
                                    (js "access-control-request-method", js "POST");
                                    (js "origin", js "https://app.example")];
                    cf := None |} in
  exists resp,
    fetch (online upstream_404) request None = Ok resp
    /\ status resp = 200
    /\ statusText resp = js "OK"
    /\ body resp = NoBody
    /\ headers_get (res_headers resp) (js "Access-Control-Allow-Methods")
       = Some (ToString (headers_get (req_headers request) (js "access-control-request-method")))
    /\ (forall c v,
          headers_get (req_headers request) (js "access-control-request-headers") = Some (c :: v) ->
          headers_get (res_headers resp) (js "Access-Control-Allow-Headers") = Some (c :: v))
    /\ headers_get (res_headers resp) (js "X-Content-Type-Options") = None.
Proof.
  intros request.
  apply (fetch_preflight (online upstream_404) request None
           (js "https://httpbin.org/get") (js "https://httpbin.org/get") upstream_404);
    reflexivity.
Defined.

(** C6 as stated fails: the request carries access-control-request-headers
    with an empty value, and the response's Access-Control-Allow-Headers is
    the upstream's, not the request's. *)
Lemma fetch_preflight_empty_requested_headers :
  let request := {| method := js "OPTIONS"; url_origin := js "https://proxy.test";
                    url_search := js "?https://httpbin.org/get";
                    req_headers := [(js "access-control-request-headers", []);
                                    (js "access-control-request-method", js "POST")];
                    cf := None |} in
  headers_get (req_headers request) (js "access-control-request-headers") = Some []
  /\ exists resp,
       fetch (online upstream_404) request None = Ok resp
       /\ headers_get (res_headers resp) (js "Access-Control-Allow-Headers")
          = Some (js "x-upstream").
Proof.
  split; [reflexivity|].
  eexists. split; vm_compute; reflexivity.
Qed.

Lemma setupCORSHeaders_allow_origin (request : Request) (h : Headers) :
  headers_get (setupCORSHeaders request h) (js "Access-Control-Allow-Origin")
  = Some (ToString (headers_get (req_headers request) (js "Origin"))).
Proof.
  unfold setupCORSHeaders.
  destruct (str_eqb (method request) (js "OPTIONS")).
  - destruct (truthy (headers_get (req_headers request) (js "access-control-request-headers")));
      through_updates; now apply headers_get_set_same.
  - now apply headers_get_set_same.
Qed.

Lemma Response_new_get (b : Body) (st : N) (t : jsstring) (h : Headers) (resp : Response)
      (name : jsstring) :
  Response_new b st t h = Ok resp ->
  same_name (js "content-type") name = false ->
  headers_get (res_headers resp) name = headers_get h name.
Proof.
  unfold Response_new. intros H Hn.
  destruct ((st <? 200) || (599 <? st)); [discriminate|].
  destruct b.
  - injection H as <-. reflexivity.
  - destruct (null_body_status st); [discriminate|]. injection H as <-. cbn [res_headers].
    destruct (headers_has h (js "content-type")); [reflexivity|].
    now apply headers_get_append_other.
  - destruct (null_body_status st); [discriminate|]. injection H as <-. reflexivity.
Qed.

Lemma info_page_without_origin (P : Platform) (request : Request) (customHeaders : jsvalue) :
  headers_get (req_headers request) (js "Origin") = None ->
  info_page P request customHeaders = info_head request ++ info_tail P request customHeaders.
Proof.
  intros H. unfold info_page, info_head, info_tail. rewrite H.
  repeat rewrite <- app_assoc. reflexivity.
Qed.

(** C7, amended.  For an allowed request without an Origin header, every
    response the handler returns carries Access-Control-Allow-Origin with
    the four characters [null] as its value, and the informational page
    goes from the Limits paragraph straight to the IP line. *)
Theorem fetch_without_origin (P : Platform) (request : Request) (env : option Env)
        (once targetUrl : jsstring) :
  headers_get (req_headers request) (js "Origin") = None ->
  URI.decodeURIComponent (substr1 (url_search request)) = Ok once ->
  URI.decodeURIComponent once = Ok targetUrl ->
  isAccessAllowed P (Some targetUrl) None (getAccessLists env) = Ok true ->
  (forall resp,
      fetch P request env = Ok resp ->
      headers_get (res_headers resp) (js "Access-Control-Allow-Origin") = Some (js "null"))
  /\ (startsWith (js "?") (url_search request) = false ->
      exists resp,
        fetch P request env = Ok resp
        /\ status resp = 200
        /\ body resp =
           TextBody (info_head request ++ info_tail P request (customHeaders_of request))).
Proof.
  intros Ho H1 H2 Ha.
  assert (Hacao : forall h,
             headers_get (setupCORSHeaders request h) (js "Access-Control-Allow-Origin")
             = Some (js "null")).
  { intros h. rewrite setupCORSHeaders_allow_origin. now rewrite Ho. }
  split.
  - intros resp. unfold fetch.
    rewrite H1. cbn [bind]. rewrite H2. cbn [bind]. rewrite Ho, Ha. cbn [bind].
    destruct (startsWith (js "?") (url_search request)).
    + destruct (upstream P targetUrl request _) as [u|e]; cbn [bind]; [|discriminate].
      intros Hr. rewrite (Response_new_get _ _ _ _ _ _ Hr) by reflexivity.
      through_updates. apply Hacao.
    + intros Hr. rewrite (Response_new_get _ _ _ _ _ _ Hr) by reflexivity.
      apply Hacao.
  - intros Hq. unfold fetch.
    rewrite H1. cbn [bind]. rewrite H2. cbn [bind]. rewrite Ho, Ha. cbn [bind].
    rewrite Hq. eexists. split; [reflexivity|]. cbn [status body]. split; [reflexivity|].
    f_equal. apply info_page_without_origin. exact Ho.
Qed.

(** A bare GET / without Origin. *)
Lemma fetch_without_origin_witness :
  let request := {| method := js "GET"; url_origin := js "https://proxy.test";
                    url_search := []; req_headers := [(js "cf-connecting-ip", js "203.0.113.7")];
                    cf := None |} in
  (forall resp,
      fetch offline request None = Ok resp ->
      headers_get (res_headers resp) (js "Access-Control-Allow-Origin") = Some (js "null"))
  /\ (startsWith (js "?") (url_search request) = false ->
      exists resp,
        fetch offline request None = Ok resp
        /\ status resp = 200
        /\ body resp =
           TextBody (info_head request ++ info_tail offline request (customHeaders_of request))).
Proof.
  intros request.
  apply (fetch_without_origin offline request None [] []); reflexivity.
Defined.

(** C7 as stated fails: without an Origin header the response does carry
    Access-Control-Allow-Origin, and its value is not empty. *)
Lemma fetch_without_origin_allow_origin_null :
  let request := {| method := js "GET"; url_origin := js "https://proxy.test";
                    url_search := []; req_headers := [(js "cf-connecting-ip", js "203.0.113.7")];
                    cf := None |} in
  headers_get (req_headers request) (js "Origin") = None
  /\ exists resp,
       fetch offline request None = Ok resp
       /\ res_headers resp =
          [(js "access-control-allow-origin", js "null");
           (js "content-type", js "text/plain;charset=UTF-8")].
Proof.
  split; [reflexivity|].
  eexists. split; vm_compute; reflexivity.
Qed.

(* ================================================================== *)
(** ** Pattern matching (wildcardToRegex, isMatched) *)
(* ================================================================== *)

Lemma model_engine_conforms (up : jsstring -> Request -> RequestInit -> result UpstreamResponse) :
  engine_conforms (model_platform up).
Proof.
  intros src s. cbn [regexp_test canonicalize model_platform]. unfold fragment_engine.
  destruct (RegExp.parse src); auto.
Qed.

Lemma wildcardToRegex_cons (c : N) (p : jsstring) :
  wildcardToRegex (c :: p) =
  (if c =? 42 then [46; 42] else if special c then [92; c] else [c]) ++ wildcardToRegex p.
Proof.
  unfold wildcardToRegex. cbn [flat_map].
  rewrite flat_map_app. f_equal.
  destruct (c =? 42) eqn:E42.
  - apply N.eqb_eq in E42. subst c. reflexivity.
  - destruct (special c); cbn [flat_map app]; rewrite ?E42; reflexivity.
Qed.

Lemma special_identity_escape (c : N) :
  special c = true -> RegExp.identity_escape c = true.
Proof.
  unfold special, RegExp.identity_escape. cbn [existsb].
  intros H.
  repeat (apply orb_true_iff in H as [H|H];
          [apply N.eqb_eq in H; subst c; reflexivity|]).
  discriminate.
Qed.

(** The parser walks through a translated wildcard pattern term by term. *)
Lemma parse_from_wildcard (p : jsstring) :
  includes 63 p = false ->
  forall cur stack q rest,
    RegExp.parse_from (wildcardToRegex p ++ 36 :: rest) cur stack q =
    RegExp.parse_from rest
      (RegExp.mkFrame (RegExp.alts cur)
         (RegExp.Eol :: rev (glob_terms p) ++ RegExp.terms cur))
      stack RegExp.NoAtom.
Proof.
  induction p as [|c p IH]; intros Hq cur stack q rest.
  - reflexivity.
  - unfold includes in Hq. cbn [existsb] in Hq.
    apply orb_false_iff in Hq as [Hc Hq]. rewrite N.eqb_sym in Hc.
    specialize (IH Hq).
    rewrite wildcardToRegex_cons.
    change (glob_terms (c :: p))
      with ((if c =? 42 then RegExp.Star RegExp.Any else RegExp.Chr c) :: glob_terms p).
    cbn [rev]. rewrite <- (app_assoc (rev (glob_terms p))). cbn [app].
    destruct (c =? 42) eqn:E42.
    + cbn [app RegExp.parse_from N.eqb Pos.eqb orb RegExp.terms RegExp.push_term RegExp.alts
           RegExp.quantify].
      now rewrite IH.
    + destruct (special c) eqn:Es.
      * cbn [app RegExp.parse_from N.eqb Pos.eqb orb].
        rewrite (special_identity_escape c Es).
        now rewrite IH.
      * unfold special in Es. cbn [existsb] in Es.
        repeat (apply orb_false_iff in Es as [? Es]).
        cbn [app RegExp.parse_from].
        unfold RegExp.pattern_char. cbn [existsb].
        repeat match goal with H : (c =? _) = false |- _ => rewrite H; clear H end.
        cbn [orb negb].
        now rewrite IH.
Qed.

Lemma seq_of_glob_terms (p : jsstring) :
  RegExp.seq_of (RegExp.Eol :: rev (glob_terms p) ++ [RegExp.Bol]) = glob_regex p.
Proof.
  unfold RegExp.seq_of, glob_regex. cbn [fold_left].
  rewrite fold_left_app. cbn [fold_left]. f_equal.
  rewrite <- fold_left_rev_right. now rewrite rev_involutive.
Qed.

Lemma parse_wildcard (p : jsstring) :
  includes 63 p = false ->
  RegExp.parse (94 :: wildcardToRegex p ++ [36]) = RegExp.Parsed (glob_regex p).
Proof.
  intros Hq. unfold RegExp.parse.
  cbn [RegExp.parse_from N.eqb Pos.eqb orb RegExp.push_term RegExp.alts RegExp.terms].
  rewrite (parse_from_wildcard p Hq).
  cbn [RegExp.parse_from RegExp.alts RegExp.terms RegExp.close_frame fold_left].
  now rewrite seq_of_glob_terms.
Qed.

Section Matcher.
Variable canon : N -> N.

(** A starred dot followed by [k] is a run of characters other than line
    terminators followed by [k]. *)
Lemma star_any (k : bool -> jsstring -> bool) (g : jsstring -> bool) :
  (forall b s, k b s = g s) ->
  forall n s b,
    (List.length s <= n)%nat ->
    RegExp.star (RegExp.m canon RegExp.Any) k n b s = skip_run not_line_terminator g s.
Proof.
  intros Hk. induction n as [|n IH]; intros s b Hlen.
  - destruct s; [|simpl in Hlen; lia].
    cbn [RegExp.star skip_run]. now rewrite Hk.
  - destruct s as [|x s].
    + cbn [RegExp.star RegExp.m skip_run]. now rewrite Hk.
    + cbn [RegExp.star RegExp.m skip_run]. rewrite Hk. f_equal.
      unfold not_line_terminator. f_equal.
      replace (List.length s <? List.length (x :: s))%nat with true.
      * cbn [andb]. apply IH. simpl in Hlen. lia.
      * symmetry. apply Nat.ltb_lt. simpl. lia.
Qed.

Lemma m_glob_terms (p : jsstring) :
  forall s b,
    RegExp.m canon
      (fold_right RegExp.Cat (RegExp.Cat RegExp.Eol RegExp.Eps) (glob_terms p))
      b s (fun _ _ => true)
    = glob not_line_terminator canon p s.
Proof.
  induction p as [|c p IH]; intros s b.
  - destruct s; reflexivity.
  - cbn [glob_terms map fold_right glob].
    destruct (c =? 42).
    + cbn [RegExp.m]. apply star_any; [|lia].
      intros b' s'. apply IH.
    + cbn [RegExp.m]. destruct s as [|x s]; [reflexivity|].
      now rewrite IH.
Qed.

Lemma search_anchored (r : RegExp.regex) (s : jsstring) :
  RegExp.search canon (RegExp.Cat RegExp.Bol r) false s = false.
Proof.
  induction s as [|x s IH]; [reflexivity|].
  cbn [RegExp.search RegExp.m andb orb]. exact IH.
Qed.

(** The anchored expression of a wildcard pattern accepts what the
    pattern, read as a glob, accepts. *)
Lemma test_glob_regex (p s : jsstring) :
  RegExp.test canon (glob_regex p) s = glob not_line_terminator canon p s.
Proof.
  unfold RegExp.test, glob_regex.
  destruct s as [|x s]; cbn [RegExp.search RegExp.m andb].
  - rewrite m_glob_terms. apply orb_false_r.
  - rewrite m_glob_terms. rewrite search_anchored. apply orb_false_r.
Qed.
End Matcher.

Lemma some_true_iff {A : Type} (f : A -> result bool) (l : list A) :
  some f l = Ok true <->
  exists l1 x l2,
    l = l1 ++ x :: l2 /\ f x = Ok true /\ Forall (fun y => f y = Ok false) l1.
Proof.
  induction l as [|a l IH]; cbn [some].
  - split; [discriminate|]. intros (l1 & x & l2 & E & _). destruct l1; discriminate.
  - split.
    + destruct (f a) as [[|]|e] eqn:Ea; cbn [bind]; try discriminate.
      * intros _. exists [], a, l. repeat split; [exact Ea | constructor].
      * intros H. apply IH in H as (l1 & x & l2 & -> & Hx & Hl1).
        exists (a :: l1), x, l2. repeat split; [exact Hx | now constructor].
    + intros (l1 & x & l2 & E & Hx & Hl1).
      destruct l1 as [|b l1]; cbn [app] in E; injection E as -> ->.
      * now rewrite Hx.
      * inversion Hl1 as [|? ? Hb Hl1']; subst. rewrite Hb. cbn [bind].
        apply IH. now exists l1, x, l2.
Qed.

Lemma some_false_iff {A : Type} (f : A -> result bool) (l : list A) :
  some f l = Ok false <-> Forall (fun y => f y = Ok false) l.
Proof.
  induction l as [|a l IH]; cbn [some].
  - split; [constructor | reflexivity].
  - split.
    + destruct (f a) as [[|]|e] eqn:Ea; cbn [bind]; try discriminate.
      intros H. constructor; [exact Ea | now apply IH].
    + intros H. inversion H as [|? ? Ha Hl]; subst. rewrite Ha. cbn [bind].
      now apply IH.
Qed.

(** C2, amended.  On a platform whose engine behaves as the fragment says:
    a pattern holding [*] and no [?] is tested as a glob over the whole
    subject, every other character standing for itself up to case and [*]
    standing for any run of characters other than line terminators; a
    pattern without [*] goes to the engine as it is and is searched for
    anywhere in the subject; and for a subject that is not empty and a list
    that is not empty, the list matches exactly when some pattern matches
    and every pattern before it was tested without a match; the empty
    subject never matches a list that is not empty, whatever its patterns. *)
Theorem isMatched_patterns (P : Platform) :
  engine_conforms P ->
  (forall p s,
      includes 42 p = true -> includes 63 p = false ->
      pattern_test P s p = Ok (glob not_line_terminator (canonicalize P) p s))
  /\ (forall p s,
        includes 42 p = false ->
        pattern_test P s p = regexp_test P p s
        /\ forall r, RegExp.parse p = RegExp.Parsed r ->
                     pattern_test P s p = Ok (RegExp.search (canonicalize P) r true s))
  /\ (forall c u l,
        l <> [] ->
        (isMatched P (Some (c :: u)) l = Ok true <->
         exists l1 p l2,
           l = l1 ++ p :: l2
           /\ pattern_test P (c :: u) p = Ok true
           /\ Forall (fun q => pattern_test P (c :: u) q = Ok false) l1)
        /\ (isMatched P (Some (c :: u)) l = Ok false <->
            Forall (fun q => pattern_test P (c :: u) q = Ok false) l))
  /\ (forall l, l <> [] -> isMatched P (Some []) l = Ok false).
Proof.
  intros Hconf. split; [|split; [|split]].
  - intros p s Hstar Hq. unfold pattern_test. rewrite Hstar.
    specialize (Hconf (94 :: wildcardToRegex p ++ [36]) s).
    rewrite (parse_wildcard p Hq) in Hconf. rewrite Hconf.
    now rewrite test_glob_regex.
  - intros p s Hstar. unfold pattern_test. rewrite Hstar. split; [reflexivity|].
    intros r Hr. specialize (Hconf p s). rewrite Hr in Hconf. exact Hconf.
  - intros c u l Hl. destruct l as [|p0 l]; [contradiction|].
    cbn [isMatched]. split.
    + apply some_true_iff.
    + apply some_false_iff.
  - intros l Hl. destruct l as [|p0 l]; [contradiction | reflexivity].
Qed.

(** The wildcard example of the specification, on the model platform. *)
Lemma isMatched_patterns_witness :
  engine_conforms offline
  /\ pattern_test offline (js "https://a.b.example.com") (js "https://*.example.com")
     = Ok (glob not_line_terminator ascii_upper
             (js "https://*.example.com") (js "https://a.b.example.com"))
  /\ glob not_line_terminator ascii_upper (js "https://*.example.com") (js "https://a.b.example.com") = true
  /\ glob not_line_terminator ascii_upper (js "https://*.example.com") (js "https://a.example.com") = true
  /\ glob not_line_terminator ascii_upper (js "https://*.example.com") (js "https://example.com") = false
  /\ glob not_line_terminator ascii_upper (js "https://*.example.com") (js "http://a.example.com") = false
  /\ isMatched offline (Some []) [js "https://*.example.com"] = Ok false.
Proof.
  split; [apply model_engine_conforms|].
  split; [|split; [|split; [|split; [|split]]]].
  - apply (proj1 (isMatched_patterns offline (model_engine_conforms _))); reflexivity.
  - vm_compute; reflexivity.
  - vm_compute; reflexivity.
  - vm_compute; reflexivity.
  - vm_compute; reflexivity.
  - apply (proj2 (proj2 (proj2 (isMatched_patterns offline (model_engine_conforms _))))).
    discriminate.
Defined.

(** C2 as stated fails in two places.  A [*] does not reach across a line
    feed, which a decoded target URL may hold; and for the empty subject
    the list does not match although its pattern does. *)
Lemma isMatched_line_feed_and_empty_subject :
  (pattern_test offline (js "https://api.example.com/a" ++ [10] ++ js "b")
     (js "https://api.example.com/*") = Ok false
   /\ glob any_character ascii_upper (js "https://api.example.com/*")
        (js "https://api.example.com/a" ++ [10] ++ js "b") = true)
  /\ (pattern_test offline [] (js "*") = Ok true
      /\ isMatched offline (Some []) [js "*"] = Ok false).
Proof.
  repeat split; vm_compute; reflexivity.
Qed.

(** The escaping leaves [?] alone: in the translated pattern it makes the
    character before it optional instead of standing for itself. *)
Lemma wildcard_question_mark :
  wildcardToRegex (js "https://api.example.com/search?q=*")
  = js "https://api\.example\.com/search?q=.*"
  /\ pattern_test offline (js "https://api.example.com/search?q=1")
       (js "https://api.example.com/search?q=*") = Ok false
  /\ pattern_test offline (js "https://api.example.com/searcq=1")
       (js "https://api.example.com/search?q=*") = Ok true.
Proof.
  repeat split; vm_compute; reflexivity.
Qed.

(* ================================================================== *)
(** ** The outbound headers and the echo of the upstream headers *)
(* ================================================================== *)

(** C4: what the handler does with [x-cors-headers: abc].  The text is not
    JSON, the error is swallowed, and [customHeaders] keeps the text: its
    characters reach the outbound headers under the names 0, 1 and 2,
    whereas without the header only [accept] is sent; the informational
    page echoes the text as well. *)
Theorem fetch_malformed_custom_headers :
  let request := {| method := js "GET"; url_origin := js "https://proxy.test";
                    url_search := js "?https://httpbin.org/get";
                    req_headers := [(js "accept", js "*/*"); (js "x-cors-headers", js "abc")];
                    cf := None |} in
  let bare := {| method := js "GET"; url_origin := js "https://proxy.test";
                 url_search := js "?https://httpbin.org/get";
                 req_headers := [(js "accept", js "*/*")];
                 cf := None |} in
  JSON.parse (js "abc") = Throw SyntaxError
  /\ customHeaders_of request = JStr (js "abc")
  /\ filteredHeaders_of request (customHeaders_of request)
     = [(js "0", JStr (js "a")); (js "1", JStr (js "b")); (js "2", JStr (js "c"));
        (js "accept", JStr (js "*/*"))]
  /\ filteredHeaders_of bare (customHeaders_of bare) = [(js "accept", JStr (js "*/*"))]
  /\ info_tail offline request (customHeaders_of request)
     = js "IP: null" ++ nl ++ nl ++ nl ++ js "x-cors-headers: " ++ quoted "abc".
Proof.
  repeat split; vm_compute; reflexivity.
Qed.

(** C3: the outbound headers of a request whose [x-cors-headers] is the
    malformed text [{bad].  The five exclusion rules drop origin, referer,
    cf-ipcountry, x-forwarded-for and x-cors-headers and keep accept; but
    the set also holds the headers 0 to 3, which are neither incoming
    headers nor members of a parsed object. *)
Theorem filteredHeaders_malformed_custom_headers :
  let request := {| method := js "GET"; url_origin := js "https://proxy.test";
                    url_search := js "?https://httpbin.org/get";
                    req_headers := [(js "Accept", js "*/*");
                                    (js "CF-IPCountry", js "DE");
                                    (js "Origin", js "https://app.example");
                                    (js "Referer", js "https://app.example/page");
                                    (js "X-Cors-Headers", js "{bad");
                                    (js "X-Forwarded-For", js "203.0.113.7")];
                    cf := None |} in
  filteredHeaders_of request (customHeaders_of request)
  = [(js "0", JStr (js "{")); (js "1", JStr (js "b")); (js "2", JStr (js "a"));
     (js "3", JStr (js "d")); (js "accept", JStr (js "*/*"))].
Proof.
  vm_compute. reflexivity.
Qed.

(** C5: the response to a GET whose upstream answer has a header named
    [__proto__].  The header is listed in Access-Control-Expose-Headers and
    is in the response, but the object serialised into cors-received-headers
    never received it, so decoding that header does not give it back. *)
Theorem fetch_upstream_proto_header :
  let request := {| method := js "GET"; url_origin := js "https://proxy.test";
                    url_search := js "?https://httpbin.org/get";
                    req_headers := [(js "origin", js "https://app.example")];
                    cf := None |} in
  exists resp received,
    fetch (online upstream_proto) request None = Ok resp
    /\ headers_get (up_headers upstream_proto) (js "__proto__") = Some (js "x")
    /\ headers_get (res_headers resp) (js "Access-Control-Expose-Headers")
       = Some (js "__proto__,content-type,cors-received-headers")
    /\ headers_get (res_headers resp) (js "cors-received-headers")
       = Some (js "{" ++ quoted "content-type" ++ js ":" ++ quoted "text/plain" ++ js "}")
    /\ JSON.parse (js "{" ++ quoted "content-type" ++ js ":" ++ quoted "text/plain" ++ js "}")
       = Ok (JObj received)
    /\ obj_get received (js "__proto__") = None
    /\ obj_get received (js "content-type") = Some (JStr (js "text/plain")).
Proof.
  eexists. eexists.
  split; [vm_compute; reflexivity|].
  repeat split; vm_compute; reflexivity.
Qed.

(** C8: the outbound headers of a request whose [x-cors-headers] is an
    object with the members [__proto__] and [origin].  The excluded name
    origin is set from the object, the member [__proto__] is not. *)
Theorem filteredHeaders_custom_proto :
  let text := js "{" ++ quoted "__proto__" ++ js ":" ++ quoted "x" ++ js ","
              ++ quoted "origin" ++ js ":" ++ quoted "https://spoofed.example" ++ js "}" in
  let request := {| method := js "GET"; url_origin := js "https://proxy.test";
                    url_search := js "?https://httpbin.org/get";
                    req_headers := [(js "origin", js "https://app.example");
                                    (js "x-cors-headers", text)];
                    cf := None |} in
  customHeaders_of request
  = JObj [(js "__proto__", JStr (js "x")); (js "origin", JStr (js "https://spoofed.example"))]
  /\ filteredHeaders_of request (customHeaders_of request)
     = [(js "origin", JStr (js "https://spoofed.example"))].
Proof.
  split; vm_compute; reflexivity.
Qed.

(* ================================================================== *)
(** ** JSON text of strings *)
(* ================================================================== *)

Lemma hexval_hex_digit (d : N) : d < 16 -> URI.hexval (JSON.hex_digit d) = Some d.
Proof.
  intros Hd. unfold JSON.hex_digit, URI.hexval.
  destruct (d <? 10) eqn:E; [apply N.ltb_lt in E | apply N.ltb_ge in E];
    repeat match goal with
           | |- context [?a <=? ?b] => destruct (N.leb_spec a b); try lia
           end;
    cbn [andb]; f_equal; lia.
Qed.

Lemma hex_digits_value (c : N) :
  c < 65536 ->
  4096 * (c / 4096) + 256 * ((c / 256) mod 16) + 16 * ((c / 16) mod 16) + c mod 16 = c.
Proof.
  intros Hc.
  pose proof (N.div_mod c 16 ltac:(lia)) as H0.
  pose proof (N.div_mod (c / 16) 16 ltac:(lia)) as H1.
  pose proof (N.div_mod (c / 256) 16 ltac:(lia)) as H2.
  assert (E1 : c / 16 / 16 = c / 256) by (rewrite N.Div0.div_div; reflexivity).
  assert (E2 : c / 256 / 16 = c / 4096) by (rewrite N.Div0.div_div; reflexivity).
  rewrite E1 in H1. rewrite E2 in H2.
  lia.
Qed.

Lemma parse_unicode_escape (c : N) (tail : jsstring) :
  c < 65536 ->
  (c =? 34) = false ->
  JSON.parse_string (JSON.unicode_escape c ++ tail) =
  match JSON.parse_string tail with
  | Some (str, r) => Some (c :: str, r)
  | None => None
  end.
Proof.
  intros Hc _. unfold JSON.unicode_escape. cbn [app JSON.parse_string N.eqb Pos.eqb].
  rewrite !hexval_hex_digit.
  - now rewrite hex_digits_value.
  - apply N.mod_lt. lia.
  - apply N.mod_lt. lia.
  - apply N.mod_lt. lia.
  - apply N.Div0.div_lt_upper_bound. lia.
Qed.

(** Reading back a quoted string gives the string. *)
Lemma parse_string_quote_body (n : nat) :
  forall s tail,
    (List.length s <= n)%nat ->
    JSON.parse_string (JSON.quote_body s ++ 34 :: tail) = Some (s, tail).
Proof.
  induction n as [|n IH]; intros s tail Hlen.
  - destruct s; [reflexivity | simpl in Hlen; lia].
  - destruct s as [|c rest]; [reflexivity|].
    assert (IH1 : JSON.parse_string (JSON.quote_body rest ++ 34 :: tail) = Some (rest, tail)).
    { apply IH. simpl in Hlen. lia. }
    cbn [JSON.quote_body].
    destruct (c =? 8) eqn:E8.
    { apply N.eqb_eq in E8. subst c. cbn. now rewrite IH1. }
    destruct (c =? 9) eqn:E9.
    { apply N.eqb_eq in E9. subst c. cbn. now rewrite IH1. }
    destruct (c =? 10) eqn:E10.
    { apply N.eqb_eq in E10. subst c. cbn. now rewrite IH1. }
    destruct (c =? 12) eqn:E12.
    { apply N.eqb_eq in E12. subst c. cbn. now rewrite IH1. }
    destruct (c =? 13) eqn:E13.
    { apply N.eqb_eq in E13. subst c. cbn. now rewrite IH1. }
    destruct (c =? 34) eqn:E34.
    { apply N.eqb_eq in E34. subst c. cbn. now rewrite IH1. }
    destruct (c =? 92) eqn:E92.
    { apply N.eqb_eq in E92. subst c. cbn. now rewrite IH1. }
    destruct (c <? 32) eqn:E32.
    { apply N.ltb_lt in E32. rewrite <- app_assoc.
      rewrite parse_unicode_escape by (try exact E34; lia). now rewrite IH1. }
    assert (Hlit : forall t,
               JSON.parse_string (c :: t) =
               match JSON.parse_string t with
               | Some (str, r) => Some (c :: str, r)
               | None => None
               end).
    { intros t. cbn [JSON.parse_string]. now rewrite E34, E92, E32. }
    destruct (JSON.high_surrogate c) eqn:Eh.
    { unfold JSON.high_surrogate in Eh. apply andb_true_iff in Eh as [_ Eh].
      apply N.leb_le in Eh.
      destruct rest as [|d rest'].
      - rewrite parse_unicode_escape by (try exact E34; lia).
        reflexivity.
      - destruct (JSON.low_surrogate d) eqn:El.
        + unfold JSON.low_surrogate in El. apply andb_true_iff in El as [El _].
          apply N.leb_le in El.
          cbn [app]. rewrite Hlit.
          cbn [JSON.parse_string].
          replace (d =? 34) with false by (symmetry; apply N.eqb_neq; lia).
          replace (d =? 92) with false by (symmetry; apply N.eqb_neq; lia).
          replace (d <? 32) with false by (symmetry; apply N.ltb_ge; lia).
          rewrite (IH rest' tail); [reflexivity | simpl in Hlen; lia].
        + rewrite <- app_assoc. rewrite parse_unicode_escape by (try exact E34; lia).
          now rewrite IH1. }
    destruct (JSON.low_surrogate c) eqn:El.
    { unfold JSON.low_surrogate in El. apply andb_true_iff in El as [_ El].
      apply N.leb_le in El.
      rewrite <- app_assoc. rewrite parse_unicode_escape by (try exact E34; lia).
      now rewrite IH1. }
    cbn [app]. rewrite Hlit. now rewrite IH1.
Qed.

Lemma parse_string_quote (s tail : jsstring) :
  JSON.parse_string (tl (JSON.quote s) ++ tail) = Some (s, tail).
Proof.
  unfold JSON.quote. cbn [tl]. rewrite <- app_assoc. cbn [app].
  now apply (parse_string_quote_body (List.length s)).
Qed.

(* ================================================================== *)
(** ** Plain objects *)
(* ================================================================== *)

Lemma obj_get_define (k k' : jsstring) (v : jsvalue) (o : jsobject) :
  obj_get (obj_define k v o) k' = if str_eqb k' k then Some v else obj_get o k'.
Proof.
  induction o as [|[k0 v0] o IH]; cbn [obj_define obj_get].
  - reflexivity.
  - destruct (str_eqb k k0) eqn:E0.
    + apply str_eqb_eq in E0. subst k0. cbn [obj_get].
      destruct (str_eqb k' k); reflexivity.
    + assert (Hskip : str_eqb k' k = true -> str_eqb k' k0 = false).
      { intros H. apply str_eqb_eq in H. now subst k'. }
      destruct (array_index k) as [i|], (array_index k0) as [j|];
        try destruct (i <? j); cbn [obj_get];
        try rewrite IH;
        destruct (str_eqb k' k) eqn:Ek; try reflexivity;
        now rewrite (Hskip eq_refl).
Qed.

Lemma obj_get_set (k k' : jsstring) (v : jsvalue) (o : jsobject) :
  obj_get (obj_set k v o) k' =
  if str_eqb k (js "__proto__") then obj_get o k'
  else if str_eqb k' k then Some v else obj_get o k'.
Proof.
  unfold obj_set. destruct (str_eqb k (js "__proto__")); [reflexivity|].
  apply obj_get_define.
Qed.

Lemma In_obj_define (k : jsstring) (v : jsvalue) (o : jsobject) (x : jsstring * jsvalue) :
  In x (obj_define k v o) -> x = (k, v) \/ In x o.
Proof.
  induction o as [|[k0 v0] o IH]; cbn [obj_define].
  - intros [H|[]]. now left.
  - destruct (str_eqb k k0).
    + intros [H|H]; [now left | right; now right].
    + destruct (array_index k) as [i|], (array_index k0) as [j|];
        try destruct (i <? j); cbn [In];
        intros H; intuition auto.
Qed.

Lemma key_before_index (k x : jsstring) :
  array_index k <> array_index x -> str_eqb k x = false.
Proof.
  intros H. apply str_eqb_neq. intros ->. now apply H.
Qed.

(** Defining a property keeps the properties in order. *)
Lemma obj_define_ordered (k : jsstring) (v : jsvalue) (o : jsobject) :
  ordered o -> ordered (obj_define k v o).
Proof.
  unfold ordered. intros Ho.
  induction Ho as [|[k0 v0] o Ho IH Hall]; cbn [obj_define].
  - repeat constructor.
  - destruct (str_eqb k k0) eqn:E0.
    + apply str_eqb_eq in E0. subst k0. now constructor.
    + assert (E0' : str_eqb k0 k = false).
      { apply str_eqb_neq. apply str_eqb_neq in E0. congruence. }
      assert (Hlater : forall P0 : jsstring * jsvalue -> Prop,
                 P0 (k, v) -> Forall P0 o -> Forall P0 (obj_define k v o)).
      { intros P0 Hk Hfo. apply Forall_forall. intros x Hx.
        apply In_obj_define in Hx as [->|Hx]; [exact Hk|].
        rewrite Forall_forall in Hfo. now apply Hfo. }
      destruct (array_index k) as [i|] eqn:Ei, (array_index k0) as [j|] eqn:Ej.
      * destruct (i <? j) eqn:Eij.
        -- apply N.ltb_lt in Eij.
           constructor; [now constructor|].
           constructor.
           ++ split; [exact E0|]. cbn [fst]. rewrite Ei, Ej. lia.
           ++ eapply Forall_impl; [|exact Hall].
              intros [x vx] [Hne Hord]. cbn [fst] in *. rewrite Ej in Hord.
              destruct (array_index x) as [jx|] eqn:Ex.
              ** split; [|rewrite Ei, Ex; lia].
                 apply key_before_index. rewrite Ei, Ex. intros [= ->]. lia.
              ** split; [|now rewrite Ei, Ex].
                 apply key_before_index. rewrite Ei, Ex. discriminate.
        -- apply N.ltb_ge in Eij.
           constructor; [exact IH|].
           apply Hlater; [|exact Hall].
           split; [exact E0'|]. cbn [fst]. now rewrite Ej, Ei.
      * constructor; [now constructor|].
        constructor.
        -- split; [exact E0|]. cbn [fst]. now rewrite Ei, Ej.
        -- eapply Forall_impl; [|exact Hall].
           intros [x vx] [Hne Hord]. cbn [fst] in *. rewrite Ej in Hord.
           destruct (array_index x) as [jx|] eqn:Ex; [contradiction|].
           split; [|now rewrite Ei, Ex].
           apply key_before_index. rewrite Ei, Ex. discriminate.
      * constructor; [exact IH|].
        apply Hlater; [|exact Hall].
        split; [exact E0'|]. cbn [fst]. now rewrite Ej, Ei.
      * constructor; [exact IH|].
        apply Hlater; [|exact Hall].
        split; [exact E0'|]. cbn [fst]. now rewrite Ej, Ei.
Qed.

Lemma obj_set_ordered (k : jsstring) (v : jsvalue) (o : jsobject) :
  ordered o -> ordered (obj_set k v o).
Proof.
  unfold obj_set. destruct (str_eqb k (js "__proto__")); [easy|].
  apply obj_define_ordered.
Qed.

Lemma obj_set_all_strings (k s : jsstring) (o : jsobject) :
  all_strings o -> all_strings (obj_set k (JStr s) o).
Proof.
  unfold obj_set, all_strings. destruct (str_eqb k (js "__proto__")); [easy|].
  intros Ho. apply Forall_forall. intros x Hx.
  apply In_obj_define in Hx as [->|Hx]; [now exists s|].
  rewrite Forall_forall in Ho. now apply Ho.
Qed.

Lemma assign_all_invariant (entries : list (jsstring * jsstring)) (o : jsobject) :
  ordered o -> all_strings o ->
  ordered (assign_all entries o) /\ all_strings (assign_all entries o).
Proof.
  revert o. induction entries as [|[k s] entries IH]; intros o Ho Hs; [now split|].
  cbn [assign_all fold_left fst snd]. apply IH.
  - now apply obj_set_ordered.
  - now apply obj_set_all_strings.
Qed.

(** A key that may stand after all the properties is appended. *)
Lemma obj_define_append (k : jsstring) (v : jsvalue) (o : jsobject) :
  Forall (fun y => key_before (fst y) k) o -> obj_define k v o = o ++ [(k, v)].
Proof.
  induction 1 as [|[k0 v0] o [Hne Hord] Hall IH]; [reflexivity|].
  cbn [obj_define app fst] in *.
  replace (str_eqb k k0) with false.
  - destruct (array_index k) as [i|], (array_index k0) as [j|]; try contradiction.
    + replace (i <? j) with false by (symmetry; apply N.ltb_ge; lia). now rewrite IH.
    + now rewrite IH.
    + now rewrite IH.
  - symmetry. apply str_eqb_neq. apply str_eqb_neq in Hne. congruence.
Qed.

Lemma StronglySorted_app_before {A : Type} (R : A -> A -> Prop) (l1 : list A) (x : A)
      (l2 : list A) :
  StronglySorted R (l1 ++ x :: l2) -> Forall (fun y => R y x) l1.
Proof.
  induction l1 as [|a l1 IH]; cbn [app]; intros H; [constructor|].
  inversion H as [|? ? Hs Hf]; subst. constructor.
  - rewrite Forall_forall in Hf. apply Hf. apply in_or_app. right. now left.
  - now apply IH.
Qed.

(** Defining the properties of an ordered object one after the other
    rebuilds the object. *)
Lemma fold_define_ordered (l acc : jsobject) :
  ordered (acc ++ l) ->
  fold_left (fun o kv => obj_define (fst kv) (snd kv) o) l acc = acc ++ l.
Proof.
  revert acc. induction l as [|[k v] l IH]; intros acc Ho.
  - now rewrite app_nil_r.
  - cbn [fold_left fst snd].
    rewrite obj_define_append.
    + rewrite IH; rewrite <- app_assoc; [reflexivity | exact Ho].
    + apply (StronglySorted_app_before _ acc (k, v) l Ho).
Qed.

(* ================================================================== *)
(** ** JSON text of objects of strings *)
(* ================================================================== *)

Section ObjectText.
Variable num : jsstring -> jsstring.

Lemma members_text_cons (k : jsstring) (v : jsvalue) (kv : jsstring * jsvalue) (o : jsobject) :
  members_text num ((k, v) :: kv :: o) =
  JSON.quote k ++ 58 :: JSON.stringify num v ++ 44 :: members_text num (kv :: o).
Proof.
  unfold members_text. cbn [map join fst snd app].
  rewrite <- app_assoc. reflexivity.
Qed.

Lemma parse_member (f : nat) (k s tail : jsstring) (acc : jsobject) :
  JSON.parse_members (S (S f))
    (JSON.quote k ++ 58 :: JSON.stringify num (JStr s) ++ tail) acc =
  match JSON.skip_ws tail with
  | c :: r =>
      if c =? 44 then JSON.parse_members (S f) r (obj_define k (JStr s) acc)
      else if c =? 125 then Some (JObj (obj_define k (JStr s) acc), r)
      else None
  | [] => None
  end.
Proof.
  cbn [JSON.parse_members JSON.stringify].
  change (JSON.quote k ++ 58 :: JSON.quote s ++ tail)
    with (34 :: (tl (JSON.quote k) ++ 58 :: 34 :: (tl (JSON.quote s) ++ tail))).
  cbn [JSON.skip_ws JSON.is_ws N.eqb Pos.eqb orb].
  rewrite parse_string_quote.
  cbn [JSON.skip_ws JSON.is_ws N.eqb Pos.eqb orb JSON.parse_value].
  rewrite parse_string_quote.
  reflexivity.
Qed.

(** The members of an object of strings are read back one by one. *)
Lemma parse_members_text (o : jsobject) :
  all_strings o -> o <> [] ->
  forall fuel acc tail,
    (List.length o < fuel)%nat ->
    JSON.parse_members fuel (members_text num o ++ 125 :: tail) acc =
    Some (JObj (fold_left (fun ob kv => obj_define (fst kv) (snd kv) ob) o acc), tail).
Proof.
  induction o as [|[k v] o IH]; intros Hs Hne fuel acc tail Hfuel; [contradiction|].
  inversion Hs as [|? ? [s Hv] Hs']; subst. cbn [snd] in Hv. subst v.
  destruct fuel as [|[|f]]; [simpl in Hfuel; lia | simpl in Hfuel; lia |].
  destruct o as [|kv o].
  - unfold members_text. cbn [map join fst snd fold_left].
    rewrite <- app_assoc. cbn [app].
    rewrite parse_member. reflexivity.
  - rewrite members_text_cons. rewrite <- app_assoc. cbn [app]. rewrite <- app_assoc.
    cbn [app]. rewrite parse_member.
    cbn [app JSON.skip_ws JSON.is_ws N.eqb Pos.eqb orb fold_left fst snd].
    apply IH; [exact Hs' | discriminate | simpl in Hfuel |- *; lia].
Qed.

Lemma members_text_length (o : jsobject) :
  (List.length o <= List.length (members_text num o))%nat.
Proof.
  induction o as [|[k v] o IH]; [apply Nat.le_0_l|].
  destruct o as [|kv o].
  - unfold members_text, JSON.quote. cbn [map join fst List.length app]. lia.
  - rewrite members_text_cons. unfold JSON.quote.
    cbn [List.length app] in *. rewrite !length_app. cbn [List.length].
    rewrite length_app. cbn [List.length]. lia.
Qed.

(** Round trip: an ordered object of strings, serialised and parsed,
    is the same object. *)
Lemma parse_stringify_object (o : jsobject) :
  ordered o -> all_strings o ->
  JSON.parse (JSON.stringify num (JObj o)) = Ok (JObj o).
Proof.
  intros Ho Hs. destruct o as [|kv o]; [reflexivity|].
  unfold JSON.parse. cbn [JSON.stringify].
  change (join [44] (map (fun kv0 => JSON.quote (fst kv0) ++ 58 :: JSON.stringify num (snd kv0))
                         (kv :: o)))
    with (members_text num (kv :: o)).
  remember (members_text num (kv :: o)) as text eqn:Et.
  assert (Hlen : (List.length (kv :: o) <= List.length text)%nat).
  { subst text. apply members_text_length. }
  assert (Hq : exists t, text = 34 :: t).
  { subst text. destruct kv as [k v]. destruct o as [|kv' o].
    - unfold members_text, JSON.quote. cbn. eauto.
    - rewrite members_text_cons. unfold JSON.quote. cbn. eauto. }
  destruct Hq as [t Ht].
  cbn [List.length]. rewrite length_app. cbn [List.length].
  replace (2 * S (List.length text + 1) + 2)%nat with (S (2 * List.length text + 5))%nat by lia.
  cbn [JSON.parse_value JSON.skip_ws JSON.is_ws N.eqb Pos.eqb orb].
  replace (JSON.skip_ws (text ++ [125])) with (text ++ [125])
    by (rewrite Ht; reflexivity).
  replace (match text ++ [125] with
           | 125 :: r => Some (JObj [], r)
           | _ => JSON.parse_members (2 * List.length text + 5) (text ++ [125]) []
           end)
    with (JSON.parse_members (2 * List.length text + 5) (text ++ [125]) [])
    by (rewrite Ht; reflexivity).
  subst text. rewrite parse_members_text; [| exact Hs | discriminate | lia].
  cbn [JSON.skip_ws]. f_equal. f_equal.
  apply (fold_define_ordered (kv :: o) []). exact Ho.
Qed.
End ObjectText.

(* ================================================================== *)
(** ** Objects built by assignment *)
(* ================================================================== *)

Lemma assign_all_overlay (entries : list (jsstring * jsstring)) (o : jsobject) :
  assign_all entries o = overlay (map (fun kv => (fst kv, JStr (snd kv))) entries) o.
Proof.
  revert o. induction entries as [|kv entries IH]; intros o; [reflexivity|].
  cbn [assign_all overlay fold_left map fst snd]. apply IH.
Qed.

Lemma overlay_get_notin (l : list (jsstring * jsvalue)) (o : jsobject) (k : jsstring) :
  (forall kv, In kv l -> fst kv <> k) ->
  obj_get (overlay l o) k = obj_get o k.
Proof.
  revert o. induction l as [|[k0 v0] l IH]; intros o Hl; [reflexivity|].
  cbn [overlay fold_left fst snd].
  change (fold_left (fun o0 entry => obj_set (fst entry) (snd entry) o0) l (obj_set k0 v0 o))
    with (overlay l (obj_set k0 v0 o)).
  rewrite IH by (intros kv Hkv; apply Hl; now right).
  rewrite obj_get_set.
  destruct (str_eqb k0 (js "__proto__")); [reflexivity|].
  replace (str_eqb k k0) with false; [reflexivity|].
  symmetry. apply str_eqb_neq. intros ->. now apply (Hl (k0, v0)); [left|].
Qed.

(** The last entry under a key decides what the key holds. *)
Lemma overlay_get_last (l1 l2 : list (jsstring * jsvalue)) (k : jsstring) (v : jsvalue)
      (o : jsobject) :
  (forall kv, In kv l2 -> fst kv <> k) ->
  k <> js "__proto__" ->
  obj_get (overlay (l1 ++ (k, v) :: l2) o) k = Some v.
Proof.
  intros Hl2 Hk. unfold overlay. rewrite fold_left_app. cbn [fold_left fst snd].
  change (fold_left (fun o0 entry => obj_set (fst entry) (snd entry) o0) l2 ?x)
    with (overlay l2 x).
  rewrite overlay_get_notin by exact Hl2.
  rewrite obj_get_set.
  apply str_eqb_neq in Hk. rewrite Hk. now rewrite str_eqb_refl.
Qed.

Lemma overlay_get_inv (l : list (jsstring * jsvalue)) (o : jsobject) (k : jsstring)
      (x : jsvalue) :
  obj_get (overlay l o) k = Some x ->
  (In (k, x) l /\ k <> js "__proto__") \/ obj_get o k = Some x.
Proof.
  revert o. induction l as [|[k0 v0] l IH]; intros o H; [now right|].
  cbn [overlay fold_left fst snd] in H.
  apply IH in H as [[Hin Hk]|H].
  - left. split; [now right | exact Hk].
  - rewrite obj_get_set in H.
    destruct (str_eqb k0 (js "__proto__")) eqn:Ep; [now right|].
    destruct (str_eqb k k0) eqn:Ek; [|now right].
    apply str_eqb_eq in Ek. subst k0. injection H as ->.
    left. split; [now left|]. now apply str_eqb_neq.
Qed.

Lemma assign_all_get (entries : list (jsstring * jsstring)) (k v : jsstring) :
  In (k, v) entries ->
  NoDup (map fst entries) ->
  k <> js "__proto__" ->
  obj_get (assign_all entries []) k = Some (JStr v).
Proof.
  intros Hin Hnd Hk. rewrite assign_all_overlay.
  apply in_split in Hin as (l1 & l2 & ->).
  rewrite map_app. cbn [map fst snd].
  apply overlay_get_last; [|exact Hk].
  intros [k' v'] Hkv Heq. cbn [fst] in Heq. subst k'.
  rewrite map_app in Hnd. cbn [map fst] in Hnd.
  apply NoDup_remove_2 in Hnd. apply Hnd. apply in_or_app. right.
  apply in_map_iff in Hkv as ([k0 s0] & [= <- _] & Hin0).
  apply in_map_iff. now exists (k0, s0).
Qed.

Lemma assign_all_get_inv (entries : list (jsstring * jsstring)) (k : jsstring) (x : jsvalue) :
  obj_get (assign_all entries []) k = Some x ->
  exists v, x = JStr v /\ In (k, v) entries /\ k <> js "__proto__".
Proof.
  rewrite assign_all_overlay. intros H.
  apply overlay_get_inv in H as [[Hin Hk]|H]; [|discriminate].
  apply in_map_iff in Hin as ([k0 s0] & [= <- <-] & Hin0).
  now exists s0.
Qed.

(* ================================================================== *)
(** ** The iteration of a header list *)
(* ================================================================== *)

Lemma str_ltb_irrefl (a : jsstring) : str_ltb a a = false.
Proof.
  induction a as [|x a IH]; [reflexivity|].
  cbn [str_ltb]. now rewrite N.ltb_irrefl, N.eqb_refl, IH.
Qed.

Lemma str_ltb_trans (a b c : jsstring) :
  str_ltb a b = true -> str_ltb b c = true -> str_ltb a c = true.
Proof.
  revert b c. induction a as [|x a IH]; intros [|y b] [|z c]; cbn [str_ltb];
    try discriminate; try reflexivity.
  intros H1 H2.
  apply orb_true_iff in H1 as [H1|H1]; apply orb_true_iff in H2 as [H2|H2].
  - apply N.ltb_lt in H1, H2. apply orb_true_iff. left. apply N.ltb_lt. lia.
  - apply andb_true_iff in H2 as [E2 _]. apply N.eqb_eq in E2. subst z.
    now rewrite H1.
  - apply andb_true_iff in H1 as [E1 _]. apply N.eqb_eq in E1. subst y.
    now rewrite H2.
  - apply andb_true_iff in H1 as [E1 L1]. apply andb_true_iff in H2 as [E2 L2].
    apply N.eqb_eq in E1, E2. subst y z. rewrite N.eqb_refl, (IH b c L1 L2).
    apply orb_true_r.
Qed.

Lemma str_ltb_total (a b : jsstring) :
  str_ltb a b = false -> str_eqb a b = false -> str_ltb b a = true.
Proof.
  revert b. induction a as [|x a IH]; intros [|y b]; cbn [str_ltb str_eqb];
    try discriminate; try reflexivity.
  intros H1 H2. apply orb_false_iff in H1 as [Hlt H1].
  apply N.ltb_ge in Hlt.
  destruct (N.eqb_spec x y) as [->|Hne].
  - cbn [andb] in H1, H2. rewrite N.eqb_refl, (IH b H1 H2). apply orb_true_r.
  - apply orb_true_iff. left. apply N.ltb_lt. lia.
Qed.

Lemma In_insert_name (n x : jsstring) (l : list jsstring) :
  In x (insert_name n l) <-> x = n \/ In x l.
Proof.
  induction l as [|y l IH]; cbn [insert_name In]; [intuition|].
  destruct (str_ltb n y); [cbn [In]; intuition|].
  destruct (str_eqb n y) eqn:E.
  - apply str_eqb_eq in E. subst y. cbn [In]. intuition.
  - cbn [In]. rewrite IH. intuition.
Qed.

Lemma insert_name_sorted (n : jsstring) (l : list jsstring) :
  StronglySorted (fun a b => str_ltb a b = true) l ->
  StronglySorted (fun a b => str_ltb a b = true) (insert_name n l).
Proof.
  induction l as [|y l IH]; intros Hs; cbn [insert_name].
  - repeat constructor.
  - inversion Hs as [|? ? Hl Hy]; subst.
    destruct (str_ltb n y) eqn:Ely.
    + constructor; [exact Hs|]. constructor; [exact Ely|].
      apply Forall_forall. intros z Hz.
      apply (str_ltb_trans n y z Ely). now apply (proj1 (Forall_forall _ _) Hy).
    + destruct (str_eqb n y) eqn:E; [exact Hs|].
      constructor; [now apply IH|].
      apply Forall_forall. intros z Hz. apply In_insert_name in Hz as [->|Hz].
      * now apply str_ltb_total.
      * now apply (proj1 (Forall_forall _ _) Hy).
Qed.

(** The names of an iteration ascend strictly: each name comes once. *)
Lemma sorted_names_sorted (h : Headers) :
  StronglySorted (fun a b => str_ltb a b = true) (sorted_names h).
Proof.
  unfold sorted_names. induction h as [|kv h IH]; cbn [map fold_right].
  - constructor.
  - now apply insert_name_sorted.
Qed.

Lemma In_sorted_names (h : Headers) (n : jsstring) :
  In n (sorted_names h) <-> exists kv, In kv h /\ n = lower (fst kv).
Proof.
  unfold sorted_names. induction h as [|kv h IH]; cbn [map fold_right In].
  - split; [intros [] | intros (kv & [] & _)].
  - rewrite In_insert_name, IH. split.
    + intros [->|(kv' & Hin & ->)]; [exists kv | exists kv']; intuition.
    + intros (kv' & [<-|Hin] & ->); [now left | right; now exists kv'].
Qed.

(** An entry of the iteration holds what [get] gives for its name. *)
Lemma headers_entries_get (h : Headers) (k v : jsstring) :
  In (k, v) (headers_entries h) ->
  str_eqb k (js "set-cookie") = false ->
  lower k = k /\ headers_get h k = Some v.
Proof.
  unfold headers_entries. intros Hin Hsc.
  apply in_flat_map in Hin as (n & Hn & Hin).
  assert (Hk : In (k, v) (match headers_get h n with
                          | Some value => [(n, value)]
                          | None => []
                          end) /\ n = k).
  { destruct (str_eqb n (js "set-cookie")) eqn:E.
    - apply in_map_iff in Hin as (kv & [= -> _] & _). congruence.
    - destruct (headers_get h n); [|destruct Hin].
      destruct Hin as [[= -> ->]|[]]. split; [now left | reflexivity]. }
  destruct Hk as [Hin' ->].
  apply In_sorted_names in Hn as (kv & _ & Hn).
  split; [rewrite Hn; apply lower_idem|].
  destruct (headers_get h k); [|destruct Hin'].
  destruct Hin' as [[= ->]|[]]. reflexivity.
Qed.

(** What [get] gives for a name is an entry of the iteration, under the
    name in lower case. *)
Lemma headers_entries_of_get (h : Headers) (name v : jsstring) :
  headers_get h name = Some v ->
  same_name name (js "set-cookie") = false ->
  In (lower name, v) (headers_entries h).
Proof.
  intros Hg Hsc. unfold headers_entries. apply in_flat_map.
  exists (lower name). split.
  - apply In_sorted_names.
    rewrite headers_get_under in Hg. unfold under in Hg.
    destruct (filter (fun kv => same_name (fst kv) name) h) as [|kv found] eqn:E;
      [discriminate|].
    assert (Hin : In kv (filter (fun kv => same_name (fst kv) name) h))
      by (rewrite E; now left).
    apply filter_In in Hin as [Hin Hs]. exists kv. split; [exact Hin|].
    unfold same_name in Hs. apply str_eqb_eq in Hs. now rewrite Hs.
  - assert (Hsc' : str_eqb (lower name) (js "set-cookie") = false) by exact Hsc.
    rewrite Hsc'.
    assert (Hsn : same_name (lower name) name = true)
      by (rewrite same_name_lower_l; apply same_name_refl).
    replace (headers_get h (lower name)) with (Some v); [now left|].
    rewrite <- Hg, !headers_get_under. now rewrite (under_same h _ _ Hsn).
Qed.

(** Without a repeated set-cookie header, the iteration gives each name
    once, in ascending order. *)
Lemma headers_entries_names (h : Headers) :
  (List.length (under (js "set-cookie") h) <= 1)%nat ->
  map fst (headers_entries h) = sorted_names h.
Proof.
  intros Hsc. unfold headers_entries.
  assert (H : forall names,
             (forall n, In n names -> In n (sorted_names h)) ->
             map fst
               (flat_map
                  (fun name =>
                     if str_eqb name (js "set-cookie")
                     then map (fun kv => (name, snd kv)) (under name h)
                     else
                       match headers_get h name with
                       | Some value => [(name, value)]
                       | None => []
                       end) names)
             = names).
  { induction names as [|n names IH]; intros Hn; [reflexivity|].
    cbn [flat_map]. rewrite map_app, IH by (intros x Hx; apply Hn; now right).
    assert (Hin : In n (sorted_names h)) by (apply Hn; now left).
    apply In_sorted_names in Hin as (kv & Hkv & En).
    assert (Hu : In kv (under n h)).
    { unfold under. apply filter_In. split; [exact Hkv|].
      rewrite En. rewrite same_name_sym, same_name_lower_l. apply same_name_refl. }
    destruct (str_eqb n (js "set-cookie")) eqn:E.
    - apply str_eqb_eq in E. subst n. rewrite E in *.
      destruct (under (js "set-cookie") h) as [|a [|b u]];
        [destruct Hu | reflexivity | cbn [List.length] in Hsc; lia].
    - rewrite headers_get_under.
      destruct (under n h); [destruct Hu | reflexivity]. }
  apply H. now intros n Hn.
Qed.

Lemma headers_entries_NoDup (h : Headers) :
  (List.length (under (js "set-cookie") h) <= 1)%nat ->
  NoDup (map fst (headers_entries h)).
Proof.
  intros Hsc. rewrite (headers_entries_names h Hsc).
  generalize (sorted_names_sorted h). generalize (sorted_names h).
  induction l as [|n l IH]; intros Hs; [constructor|].
  inversion Hs as [|? ? Hl Hn]; subst. constructor; [|now apply IH].
  intros Hin. apply (proj1 (Forall_forall _ _) Hn) in Hin.
  now rewrite str_ltb_irrefl in Hin.
Qed.

(** A key whose members all hold the same value ends with that value. *)
Lemma overlay_get_functional (l : list (jsstring * jsvalue)) (o : jsobject)
      (k : jsstring) (v : jsvalue) :
  In (k, v) l ->
  (forall v', In (k, v') l -> v' = v) ->
  k <> js "__proto__" ->
  obj_get (overlay l o) k = Some v.
Proof.
  intros Hin Hfun Hk. revert o Hin Hfun.
  induction l as [|[k0 v0] l IH] using rev_ind; intros o Hin Hfun; [destruct Hin|].
  unfold overlay. rewrite fold_left_app. cbn [fold_left fst snd].
  fold (overlay l o). rewrite obj_get_set.
  destruct (str_eqb k k0) eqn:Ek.
  - apply str_eqb_eq in Ek. subst k0.
    apply str_eqb_neq in Hk. rewrite Hk. f_equal.
    apply Hfun. apply in_or_app. right. now left.
  - assert (Hin' : In (k, v) l).
    { apply in_app_or in Hin as [Hin|[[= <- _]|[]]]; [exact Hin|].
      now rewrite str_eqb_refl in Ek. }
    assert (IH' : obj_get (overlay l o) k = Some v).
    { apply IH; [exact Hin'|]. intros v' Hv'. apply Hfun. apply in_or_app. now left. }
    now destruct (str_eqb k0 (js "__proto__")).
Qed.

Lemma assign_all_get_functional (entries : list (jsstring * jsstring)) (k v : jsstring) :
  In (k, v) entries ->
  (forall v', In (k, v') entries -> v' = v) ->
  k <> js "__proto__" ->
  obj_get (assign_all entries []) k = Some (JStr v).
Proof.
  intros Hin Hfun Hk. rewrite assign_all_overlay.
  apply overlay_get_functional; [| |exact Hk].
  - apply in_map_iff. now exists (k, v).
  - intros v' Hv'. apply in_map_iff in Hv' as ([k0 s0] & [= <- <-] & Hin0).
    f_equal. now apply Hfun.
Qed.

(** The entry of a name other than set-cookie is the only one of its name. *)
Lemma headers_entries_functional (h : Headers) (k v v' : jsstring) :
  str_eqb k (js "set-cookie") = false ->
  In (k, v) (headers_entries h) -> In (k, v') (headers_entries h) -> v' = v.
Proof.
  intros Hsc H1 H2.
  apply headers_entries_get in H1 as [_ H1]; [|exact Hsc].
  apply headers_entries_get in H2 as [_ H2]; [|exact Hsc].
  congruence.
Qed.

(* ================================================================== *)
(** ** The echo of the upstream headers *)
(* ================================================================== *)

(** The handler on its proxied path, after the upstream has answered. *)
Lemma fetch_proxied (P : Platform) (request : Request) (env : option Env)
      (once targetUrl : jsstring) (u : UpstreamResponse) :
  startsWith (js "?") (url_search request) = true ->
  URI.decodeURIComponent (substr1 (url_search request)) = Ok once ->
  URI.decodeURIComponent once = Ok targetUrl ->
  isAccessAllowed P (Some targetUrl) (headers_get (req_headers request) (js "Origin"))
    (getAccessLists env) = Ok true ->
  upstream P targetUrl request
    {| redirect := js "follow";
       init_headers := filteredHeaders_of request (customHeaders_of request) |} = Ok u ->
  fetch P request env =
  Response_new
    (if str_eqb (method request) (js "OPTIONS") then NoBody else BufferBody (up_body u))
    (if str_eqb (method request) (js "OPTIONS") then 200 else up_status u)
    (if str_eqb (method request) (js "OPTIONS") then js "OK" else up_statusText u)
    (headers_set
       (headers_set (setupCORSHeaders request (up_headers u))
          (js "Access-Control-Expose-Headers")
          (join (js ",")
             (map fst (headers_entries (up_headers u)) ++ [js "cors-received-headers"])))
       (js "cors-received-headers")
       (JSON.stringify (number_to_string P)
          (JObj (assign_all (headers_entries (up_headers u)) [])))).
Proof.
  intros Hq H1 H2 Ha Hu. unfold fetch.
  rewrite H1. cbn [bind]. rewrite H2. cbn [bind]. rewrite Ha. cbn [bind].
  rewrite Hq, Hu. reflexivity.
Qed.

(** X1. The upstream headers come back from cors-received-headers.  For every
    proxied call that returns a response, the header cors-received-headers
    parses as JSON to the object built from the entries of the upstream
    headers, which the platform hands out sorted by name and combined: it
    holds every entry whose name is not [__proto__], when no name comes
    twice (only set-cookie can); it holds, under the name in lower case,
    what [get] gives for every upstream header other than set-cookie and
    [__proto__], however the upstream ordered and repeated its headers;
    and it holds nothing but upstream entries.  Access-Control-Expose-Headers
    is the names of the entries joined by commas with cors-received-headers
    at the end. *)
Theorem cors_received_headers_round_trip (P : Platform) (request : Request)
        (env : option Env) (once targetUrl : jsstring) (u : UpstreamResponse)
        (resp : Response) :
  startsWith (js "?") (url_search request) = true ->
  URI.decodeURIComponent (substr1 (url_search request)) = Ok once ->
  URI.decodeURIComponent once = Ok targetUrl ->
  isAccessAllowed P (Some targetUrl) (headers_get (req_headers request) (js "Origin"))
    (getAccessLists env) = Ok true ->
  upstream P targetUrl request
    {| redirect := js "follow";
       init_headers := filteredHeaders_of request (customHeaders_of request) |} = Ok u ->
  fetch P request env = Ok resp ->
  exists text received,
    headers_get (res_headers resp) (js "cors-received-headers") = Some text
    /\ JSON.parse text = Ok (JObj received)
    /\ (forall k v,
          In (k, v) (headers_entries (up_headers u)) ->
          NoDup (map fst (headers_entries (up_headers u))) ->
          k <> js "__proto__" ->
          obj_get received k = Some (JStr v))
    /\ (forall k x,
          obj_get received k = Some x ->
          exists v, x = JStr v /\ In (k, v) (headers_entries (up_headers u)))
    /\ headers_get (res_headers resp) (js "Access-Control-Expose-Headers")
       = Some (join (js ",")
                 (map fst (headers_entries (up_headers u)) ++ [js "cors-received-headers"]))
    /\ (forall name v,
          headers_get (up_headers u) name = Some v ->
          same_name name (js "set-cookie") = false ->
          lower name <> js "__proto__" ->
          obj_get received (lower name) = Some (JStr v)).
Proof.
  intros Hq H1 H2 Ha Hu Hr.
  rewrite (fetch_proxied P request env once targetUrl u Hq H1 H2 Ha Hu) in Hr.
  destruct (assign_all_invariant (headers_entries (up_headers u)) []) as [Hord Hstr];
    [constructor | constructor |].
  exists (JSON.stringify (number_to_string P)
            (JObj (assign_all (headers_entries (up_headers u)) []))).
  exists (assign_all (headers_entries (up_headers u)) []).
  split; [|split; [|split; [|split; [|split]]]].
  - rewrite (Response_new_get _ _ _ _ _ _ Hr) by reflexivity.
    now apply headers_get_set_same.
  - now apply parse_stringify_object.
  - intros k v Hin Hnd Hk. now apply assign_all_get.
  - intros k x Hx. apply assign_all_get_inv in Hx as (v & -> & Hin & _). now exists v.
  - rewrite (Response_new_get _ _ _ _ _ _ Hr) by reflexivity.
    through_updates. now apply headers_get_set_same.
  - intros name v Hg Hsc Hk.
    apply assign_all_get_functional; [| |exact Hk].
    + now apply headers_entries_of_get.
    + intros v' Hv'.
      apply (headers_entries_functional (up_headers u) (lower name)); [exact Hsc|  |exact Hv'].
      now apply headers_entries_of_get.
Qed.

(** GET /?https://httpbin.org/get, answered with five headers that are out
    of order and name Vary twice. *)
Lemma cors_received_headers_round_trip_witness :
  let request := {| method := js "GET"; url_origin := js "https://proxy.test";
                    url_search := js "?https://httpbin.org/get";
                    req_headers := [(js "origin", js "https://app.example")];
                    cf := None |} in
  exists resp text received,
    fetch (online upstream_unsorted) request None = Ok resp
    /\ status resp = 200
    /\ headers_get (res_headers resp) (js "cors-received-headers") = Some text
    /\ JSON.parse text = Ok (JObj received)
    /\ obj_get received (js "vary") = Some (JStr (js "accept, origin"))
    /\ obj_get received (js "x-b") = Some (JStr (js "1"))
    /\ (forall k x,
          obj_get received k = Some x ->
          exists v, x = JStr v /\ In (k, v) (headers_entries (up_headers upstream_unsorted)))
    /\ headers_get (res_headers resp) (js "Access-Control-Expose-Headers")
       = Some (js "a,content-type,vary,x-b,cors-received-headers").
Proof.
  intros request.
  assert (Hf : exists resp, fetch (online upstream_unsorted) request None = Ok resp
                            /\ status resp = 200).
  { eexists. split; vm_compute; reflexivity. }
  destruct Hf as (resp & Hf & Hst).
  destruct (cors_received_headers_round_trip (online upstream_unsorted) request None
              (js "https://httpbin.org/get") (js "https://httpbin.org/get")
              upstream_unsorted resp eq_refl eq_refl eq_refl eq_refl eq_refl Hf)
    as (text & received & Ht & Hp & Hall & Honly & Hexp & Hget).
  exists resp, text, received.
  split; [exact Hf|]. split; [exact Hst|]. split; [exact Ht|]. split; [exact Hp|].
  split; [|split; [|split]].
  - apply Hall.
    + vm_compute. tauto.
    + vm_compute. repeat constructor; cbn [In]; intuition discriminate.
    + discriminate.
  - apply (Hget (js "X-B") (js "1")); [reflexivity | reflexivity | discriminate].
  - exact Honly.
  - exact Hexp.
Defined.

(* ================================================================== *)
(** ** The outbound headers *)
(* ================================================================== *)

Lemma m_lit_regex (lit : jsstring) :
  forall s b,
    RegExp.m (fun c => c) (lit_regex lit) b s (fun _ _ => true) = startsWith lit s.
Proof.
  induction lit as [|c lit IH]; intros s b; [reflexivity|].
  cbn [lit_regex map fold_right RegExp.m startsWith].
  destruct s as [|x s]; [reflexivity|].
  rewrite N.eqb_sym. f_equal. apply IH.
Qed.

Lemma test_prefix (lit s : jsstring) :
  RegExp.test (fun c => c) (RegExp.Cat RegExp.Bol (lit_regex lit)) s = startsWith lit s.
Proof.
  unfold RegExp.test.
  destruct s as [|x s]; cbn [RegExp.search RegExp.m andb]; rewrite m_lit_regex.
  - apply orb_false_r.
  - rewrite search_anchored. apply orb_false_r.
Qed.

Lemma search_lit_regex (lit s : jsstring) :
  forall b, RegExp.search (fun c => c) (lit_regex lit) b s = contains lit s.
Proof.
  induction s as [|x s IH]; intros b; cbn [RegExp.search contains]; rewrite m_lit_regex.
  - reflexivity.
  - now rewrite IH.
Qed.

(** The five tests of the handler's loop say that the key is not excluded. *)
Lemma match_null_excluded (key : jsstring) :
  match_null key (js "^origin")
  && match_null key (js "eferer")
  && match_null key (js "^cf-")
  && match_null key (js "^x-forw")
  && match_null key (js "^x-cors-headers")
  = negb (excluded key).
Proof.
  unfold excluded. rewrite !negb_orb.
  assert (Hp : forall lit : string,
             RegExp.parse (94 :: js lit) = RegExp.Parsed (RegExp.Cat RegExp.Bol (lit_regex (js lit))) ->
             match_null key (94 :: js lit) = negb (startsWith (js lit) key)).
  { intros lit Hlit. unfold match_null. rewrite Hlit. now rewrite test_prefix. }
  change (js "^origin") with (94 :: js "origin").
  change (js "^cf-") with (94 :: js "cf-").
  change (js "^x-forw") with (94 :: js "x-forw").
  change (js "^x-cors-headers") with (94 :: js "x-cors-headers").
  rewrite !Hp by reflexivity.
  replace (match_null key (js "eferer")) with (negb (contains (js "eferer") key)); [reflexivity|].
  unfold match_null.
  change (RegExp.parse (js "eferer")) with (RegExp.Parsed (lit_regex (js "eferer"))).
  unfold RegExp.test. now rewrite search_lit_regex.
Qed.

Lemma filteredHeaders_of_overlay (request : Request) (customHeaders : jsvalue) :
  filteredHeaders_of request customHeaders =
  if is_null customHeaders then assign_all (retained request) []
  else overlay (Object_entries customHeaders) (assign_all (retained request) []).
Proof.
  unfold filteredHeaders_of, retained.
  assert (H : forall l o,
             fold_left
               (fun o kv =>
                  let key := fst kv in
                  if match_null key (js "^origin")
                     && match_null key (js "eferer")
                     && match_null key (js "^cf-")
                     && match_null key (js "^x-forw")
                     && match_null key (js "^x-cors-headers")
                  then obj_set key (JStr (snd kv)) o
                  else o) l o
             = assign_all (filter (fun kv : jsstring * jsstring => negb (excluded (fst kv))) l) o).
  { induction l as [|kv l IH]; intros o; [reflexivity|].
    cbn [fold_left filter]. cbv zeta. rewrite match_null_excluded.
    destruct (negb (excluded (fst kv))); cbn [assign_all fold_left]; apply IH. }
  rewrite H. reflexivity.
Qed.

(** X2. What the outbound header object holds.  The incoming headers are
    gone through as the platform hands them out: sorted by name, the values
    of a repeated name combined into one entry.
    - An incoming entry stays when none of the five exclusion rules hits
      its lower-case name, the name is not [__proto__], and the custom
      headers do not name it.
    - A member of the custom headers is set, excluded name or not, and the
      last member of a name wins; only a member named [__proto__] is not.
    - Nothing else is in the object.
    - However the request ordered and repeated its headers, what [get]
      gives for a name other than set-cookie stays under the name in lower
      case, on the conditions of the first point. *)
Theorem outbound_headers (request : Request) (customHeaders : jsvalue) :
  (forall k s,
      In (k, s) (headers_entries (req_headers request)) ->
      NoDup (map fst (headers_entries (req_headers request))) ->
      excluded k = false ->
      k <> js "__proto__" ->
      (is_null customHeaders = true
       \/ forall entry, In entry (Object_entries customHeaders) -> fst entry <> k) ->
      obj_get (filteredHeaders_of request customHeaders) k = Some (JStr s))
  /\ (forall l1 k v l2,
        is_null customHeaders = false ->
        Object_entries customHeaders = l1 ++ (k, v) :: l2 ->
        (forall entry, In entry l2 -> fst entry <> k) ->
        k <> js "__proto__" ->
        obj_get (filteredHeaders_of request customHeaders) k = Some v)
  /\ (forall k x,
        obj_get (filteredHeaders_of request customHeaders) k = Some x ->
        k <> js "__proto__"
        /\ ((is_null customHeaders = false /\ In (k, x) (Object_entries customHeaders))
            \/ exists s, x = JStr s
                         /\ In (k, s) (headers_entries (req_headers request))
                         /\ excluded k = false))
  /\ (forall name s,
        headers_get (req_headers request) name = Some s ->
        same_name name (js "set-cookie") = false ->
        excluded (lower name) = false ->
        lower name <> js "__proto__" ->
        (is_null customHeaders = true
         \/ forall entry, In entry (Object_entries customHeaders) -> fst entry <> lower name) ->
        obj_get (filteredHeaders_of request customHeaders) (lower name) = Some (JStr s)).
Proof.
  rewrite filteredHeaders_of_overlay.
  assert (Hret : forall k s,
             In (k, s) (headers_entries (req_headers request)) ->
             NoDup (map fst (headers_entries (req_headers request))) ->
             excluded k = false ->
             k <> js "__proto__" ->
             obj_get (assign_all (retained request) []) k = Some (JStr s)).
  { intros k s Hin Hnd Hex Hk. apply assign_all_get; [| |exact Hk].
    - unfold retained. apply filter_In. split; [exact Hin|]. cbn [fst]. now rewrite Hex.
    - unfold retained.
      assert (Hsub : forall l : list (jsstring * jsstring),
                 NoDup (map fst l) ->
                 NoDup (map fst (filter (fun kv => negb (excluded (fst kv))) l))).
      { induction l as [|kv l IH]; cbn [map filter]; intros Hl; [constructor|].
        inversion Hl as [|? ? Hnot Hl']; subst.
        destruct (negb (excluded (fst kv))); [|now apply IH].
        cbn [map]. constructor; [|now apply IH].
        intros Hc. apply Hnot. apply in_map_iff in Hc as (y & Hy & Hin').
        apply filter_In in Hin' as [Hin' _]. apply in_map_iff. now exists y. }
      now apply Hsub. }
  assert (Hinv : forall k x,
             obj_get (assign_all (retained request) []) k = Some x ->
             k <> js "__proto__"
             /\ exists s, x = JStr s
                          /\ In (k, s) (headers_entries (req_headers request))
                          /\ excluded k = false).
  { intros k x Hx. apply assign_all_get_inv in Hx as (s & -> & Hin & Hk).
    split; [exact Hk|]. exists s. split; [reflexivity|].
    unfold retained in Hin. apply filter_In in Hin as [Hin Hex]. cbn [fst] in Hex.
    split; [exact Hin|]. now destruct (excluded k). }
  assert (Hget : forall name s,
             headers_get (req_headers request) name = Some s ->
             same_name name (js "set-cookie") = false ->
             excluded (lower name) = false ->
             lower name <> js "__proto__" ->
             obj_get (assign_all (retained request) []) (lower name) = Some (JStr s)).
  { intros name s Hg Hsc Hex Hk.
    pose proof (headers_entries_of_get _ _ _ Hg Hsc) as Hin.
    apply assign_all_get_functional; [| |exact Hk].
    - unfold retained. apply filter_In. split; [exact Hin|]. cbn [fst]. now rewrite Hex.
    - intros s' Hs'. unfold retained in Hs'. apply filter_In in Hs' as [Hs' _].
      exact (headers_entries_functional _ _ _ _ Hsc Hin Hs'). }
  split; [|split; [|split]].
  - intros k s Hin Hnd Hex Hk [Hnull|Hfree].
    + rewrite Hnull. now apply Hret.
    + destruct (is_null customHeaders); [now apply Hret|].
      rewrite overlay_get_notin by exact Hfree. now apply Hret.
  - intros l1 k v l2 Hnull Hent Hl2 Hk. rewrite Hnull, Hent.
    now apply overlay_get_last.
  - intros k x Hx. destruct (is_null customHeaders) eqn:Hnull.
    + apply Hinv in Hx as [Hk Hs]. split; [exact Hk | now right].
    + apply overlay_get_inv in Hx as [[Hin Hk]|Hx].
      * split; [exact Hk|]. left. now split.
      * apply Hinv in Hx as [Hk Hs]. split; [exact Hk | now right].
  - intros name s Hg Hsc Hex Hk [Hnull|Hfree].
    + rewrite Hnull. now apply Hget.
    + destruct (is_null customHeaders); [now apply Hget|].
      rewrite overlay_get_notin by exact Hfree. now apply Hget.
Qed.

(** A request whose incoming names are in mixed case and out of order,
    with Accept sent twice, and a custom object that names both an
    excluded header and a retained one. *)
Lemma outbound_headers_witness :
  let text := js "{" ++ quoted "origin" ++ js ":" ++ quoted "https://spoofed.example" ++ js ","
              ++ quoted "user-agent" ++ js ":" ++ quoted "custom/1" ++ js "}" in
  let request := {| method := js "GET"; url_origin := js "https://proxy.test";
                    url_search := js "?https://httpbin.org/get";
                    req_headers := [(js "User-Agent", js "curl/8");
                                    (js "Accept", js "text/html");
                                    (js "Origin", js "https://app.example");
                                    (js "X-Forwarded-For", js "203.0.113.7");
                                    (js "X-Cors-Headers", text);
                                    (js "accept", js "*/*");
                                    (js "Accept-Language", js "en")];
                    cf := None |} in
  customHeaders_of request
  = JObj [(js "origin", JStr (js "https://spoofed.example"));
          (js "user-agent", JStr (js "custom/1"))]
  /\ obj_get (filteredHeaders_of request (customHeaders_of request)) (js "accept-language")
     = Some (JStr (js "en"))
  /\ obj_get (filteredHeaders_of request (customHeaders_of request)) (js "accept")
     = Some (JStr (js "text/html, */*"))
  /\ obj_get (filteredHeaders_of request (customHeaders_of request)) (js "origin")
     = Some (JStr (js "https://spoofed.example"))
  /\ obj_get (filteredHeaders_of request (customHeaders_of request)) (js "user-agent")
     = Some (JStr (js "custom/1"))
  /\ obj_get (filteredHeaders_of request (customHeaders_of request)) (js "x-forwarded-for")
     = None.
Proof.
  intros text request.
  assert (Hc : customHeaders_of request
               = JObj [(js "origin", JStr (js "https://spoofed.example"));
                       (js "user-agent", JStr (js "custom/1"))])
    by (vm_compute; reflexivity).
  destruct (outbound_headers request (customHeaders_of request))
    as (Hkeep & Hset & Honly & Hget).
  split; [exact Hc|]. split; [|split; [|split; [|split]]].
  - apply Hkeep.
    + vm_compute. tauto.
    + vm_compute. repeat constructor; cbn [In]; intuition discriminate.
    + reflexivity.
    + discriminate.
    + right. rewrite Hc. cbn [Object_entries In]. intros entry [<-|[<-|[]]]; discriminate.
  - apply (Hget (js "Accept") (js "text/html, */*")).
    + reflexivity.
    + reflexivity.
    + reflexivity.
    + discriminate.
    + right. rewrite Hc. cbn [Object_entries In]. intros entry [<-|[<-|[]]]; discriminate.
  - apply (Hset [] _ _ [(js "user-agent", JStr (js "custom/1"))]).
    + now rewrite Hc.
    + now rewrite Hc.
    + cbn [In]. intros entry [<-|[]]. discriminate.
    + discriminate.
  - apply (Hset [(js "origin", JStr (js "https://spoofed.example"))] _ _ []).
    + now rewrite Hc.
    + now rewrite Hc.
    + intros entry [].
    + discriminate.
  - vm_compute. reflexivity.
Defined.

(* ================================================================== *)
(** ** Further facts and the scenarios of the specification *)
(* ================================================================== *)

(** Decoding fails in one way only. *)
Lemma decode_only_URIError (n : nat) :
  forall s pend e,
    (List.length s <= n)%nat ->
    URI.decode pend s = Throw e -> e = URIError.
Proof.
  induction n as [|n IH]; intros s pend e Hlen H.
  - destruct s; [|simpl in Hlen; lia].
    destruct pend; simpl in H; congruence.
  - destruct s as [|c rest0]; [destruct pend; simpl in H; congruence|].
    simpl in H.
    assert (Hb : forall (A : Type) (s' : jsstring) (pend' : option (nat * list N))
                        (k : jsstring -> result A),
               (List.length s' <= n)%nat ->
               (forall r, k r <> Throw e) ->
               bind (URI.decode pend' s') k = Throw e -> e = URIError).
    { intros A s' pend' k Hs Hk Hbind.
      destruct (URI.decode pend' s') as [r|e'] eqn:Ed; cbn [bind] in Hbind.
      - now apply Hk in Hbind.
      - injection Hbind as ->. now apply (IH s' pend'). }
    destruct (c =? 37).
    + destruct rest0 as [|h [|l rest]]; try congruence.
      destruct (URI.hexval h) as [a|]; [|congruence].
      destruct (URI.hexval l) as [b|]; [|congruence].
      simpl in Hlen.
      destruct pend as [[[|[|k]] acc]|].
      * congruence.
      * destruct (URI.utf8_code_point (acc ++ [16 * a + b])); [|congruence].
        refine (Hb _ rest None _ _ _ H); [lia | intros r; discriminate].
      * apply (IH rest _ e ltac:(lia) H).
      * destruct (16 * a + b <? 128).
        -- refine (Hb _ rest None _ _ _ H); [lia | intros r; discriminate].
        -- destruct (URI.sequence_length (16 * a + b)); [congruence|].
           apply (IH rest _ e ltac:(lia) H).
    + destruct pend; [congruence|]. simpl in Hlen.
      refine (Hb _ rest0 None _ _ _ H); [lia | intros r; discriminate].
Qed.

(** X3. Whenever one of the two decoding steps fails, the handler ends in a
    URIError, whatever the access lists say. *)
Theorem fetch_undecodable (P : Platform) (request : Request) (env : option Env) (e : exn) :
  URI.decodeURIComponent (substr1 (url_search request)) = Throw e
  \/ (exists once,
         URI.decodeURIComponent (substr1 (url_search request)) = Ok once
         /\ URI.decodeURIComponent once = Throw e) ->
  fetch P request env = Throw URIError.
Proof.
  unfold fetch. intros [H|(once & H1 & H2)].
  - rewrite H. cbn [bind]. f_equal.
    exact (decode_only_URIError _ _ None e (Nat.le_refl _) H).
  - rewrite H1. cbn [bind]. rewrite H2. cbn [bind]. f_equal.
    exact (decode_only_URIError _ _ None e (Nat.le_refl _) H2).
Qed.

(** The query [?%25] holds a well-formed escape only, and fails at the
    second decoding. *)
Lemma fetch_undecodable_witness :
  URI.has_bad_escape (js "%25") = false
  /\ fetch offline
       {| method := js "GET"; url_origin := js "https://proxy.test";
          url_search := js "?%25"; req_headers := []; cf := None |} None
     = Throw URIError.
Proof.
  split; [reflexivity|].
  apply (fetch_undecodable offline _ None URIError).
  right. exists (js "%"). split; reflexivity.
Defined.

(** Whitelist gating: with WHITELIST_URLS=https://api.example.com/* and no
    blacklist, a target under the prefix is allowed and another is denied. *)
Example whitelist_gating :
  let L := getAccessLists
             (Some {| WHITELIST_URLS := Some (js "https://api.example.com/*");
                      BLACKLIST_URLS := None; WHITELIST_ORIGINS := None;
                      BLACKLIST_ORIGINS := None |}) in
  isAccessAllowed offline (Some (js "https://api.example.com/v1/x"))
    (Some (js "https://app.example")) L = Ok true
  /\ isAccessAllowed offline (Some (js "https://evil.com"))
       (Some (js "https://app.example")) L = Ok false.
Proof. split; vm_compute; reflexivity. Qed.

(** GET /?https://httpbin.org/get with Origin: https://app.example and no
    access lists: the upstream status and body come back, and the origin is
    reflected. *)
Example forwarded_request :
  exists resp,
    fetch (online upstream_200)
      {| method := js "GET"; url_origin := js "https://proxy.test";
         url_search := js "?https://httpbin.org/get";
         req_headers := [(js "origin", js "https://app.example")]; cf := None |} None
    = Ok resp
    /\ status resp = 200
    /\ body resp = BufferBody (js "{}")
    /\ headers_get (res_headers resp) (js "Access-Control-Allow-Origin")
       = Some (js "https://app.example")
    /\ headers_get (res_headers resp) (js "Access-Control-Expose-Headers")
       = Some (js "content-type,set-cookie,cors-received-headers")
    /\ headers_get (res_headers resp) (js "cors-received-headers")
       = Some (js "{" ++ quoted "content-type" ++ js ":" ++ quoted "application/json" ++ js ","
               ++ quoted "set-cookie" ++ js ":" ++ quoted "sid=1" ++ js "}").
Proof. eexists. repeat split; vm_compute; reflexivity. Qed.

(** A request without query string gets the informational page. *)
Example informational_page :
  exists resp,
    fetch offline
      {| method := js "GET"; url_origin := js "https://proxy.test";
         url_search := [];
         req_headers := [(js "cf-connecting-ip", js "203.0.113.7");
                         (js "origin", js "https://app.example")];
         cf := Some {| country := Some (js "DE"); colo := Some (js "FRA") |} |} None
    = Ok resp
    /\ status resp = 200
    /\ body resp =
       TextBody
         (js "CLOUDFLARE-CORS-ANYWHERE" ++ nl ++ nl ++
          js "Source:" ++ nl ++ js "https://github.com/Zibri/cloudflare-cors-anywhere" ++ nl ++ nl ++
          js "Usage:" ++ nl ++ js "https://proxy.test/?uri" ++ nl ++ nl ++
          js "Limits: 100,000 requests/day" ++ nl ++
          js "          1,000 requests/10 minutes" ++ nl ++ nl ++
          js "Origin: https://app.example" ++ nl ++
          js "IP: 203.0.113.7" ++ nl ++
          js "Country: DE" ++ nl ++
          js "Datacenter: FRA" ++ nl ++ nl).
Proof. eexists. repeat split; vm_compute; reflexivity. Qed.


(* ================================================================== *)
(** ** The access lists (parseList, getAccessLists) *)
(* ================================================================== *)

Lemma trim_start_head (s : jsstring) (c : N) (t : jsstring) :
  trim_start s = c :: t -> is_space c = false.
Proof.
  induction s as [|x s IH]; cbn [trim_start]; [discriminate|].
  destruct (is_space x) eqn:E; [exact IH|].
  intros [= -> _]. exact E.
Qed.

Lemma trim_start_keep (c : N) (s : jsstring) :
  is_space c = false -> trim_start (c :: s) = c :: s.
Proof. intros H. cbn [trim_start]. now rewrite H. Qed.

Lemma trim_start_app (l : jsstring) (c : N) (r : jsstring) :
  is_space c = false -> trim_start (l ++ c :: r) = trim_start l ++ c :: r.
Proof.
  intros Hc. induction l as [|x l IH]; cbn [app trim_start].
  - now rewrite Hc.
  - destruct (is_space x); [exact IH | reflexivity].
Qed.

(** What [trim] leaves is empty, or starts with a character other than
    white space and has none at its end. *)
Lemma trim_cases (s : jsstring) :
  trim s = [] \/
  exists c u,
    is_space c = false /\ trim s = c :: rev u /\ trim_start (u ++ [c]) = u ++ [c].
Proof.
  unfold trim.
  destruct (trim_start s) as [|c t] eqn:Et; [now left|].
  right. pose proof (trim_start_head _ _ _ Et) as Hc.
  exists c, (trim_start (rev t)). split; [exact Hc|].
  cbn [rev]. rewrite (trim_start_app (rev t) c [] Hc).
  rewrite rev_app_distr. cbn [rev app]. split; [reflexivity|].
  destruct (trim_start (rev t)) as [|d u] eqn:Eu.
  - cbn [app]. now apply trim_start_keep.
  - cbn [app]. apply trim_start_keep. exact (trim_start_head _ _ _ Eu).
Qed.






Lemma parseList_blank (envVar : option jsstring) (defaultValue : list jsstring) :
  blank envVar -> parseList envVar defaultValue = defaultValue.
Proof.
  destruct envVar as [v|]; cbn [blank parseList]; [|reflexivity].
  intros ->. now rewrite orb_true_r.
Qed.



Lemma split_comma_free (x : jsstring) :
  includes 44 x = false -> split 44 x = [x].
Proof.
  induction x as [|c x IH]; [reflexivity|].
  unfold includes. cbn [existsb split]. intros H.
  apply orb_false_iff in H as [Hc Hx]. rewrite N.eqb_sym in Hc. rewrite Hc.
  now rewrite (IH Hx).
Qed.

Lemma split_app_comma (x rest : jsstring) :
  includes 44 x = false -> split 44 (x ++ 44 :: rest) = x :: split 44 rest.
Proof.
  induction x as [|c x IH]; [reflexivity|].
  unfold includes. cbn [existsb split app]. intros H.
  apply orb_false_iff in H as [Hc Hx]. rewrite N.eqb_sym in Hc. rewrite Hc.
  now rewrite (IH Hx).
Qed.

Lemma split_join (items : list jsstring) :
  items <> [] ->
  Forall (fun x => includes 44 x = false) items ->
  split 44 (join [44] items) = items.
Proof.
  induction items as [|x items IH]; [contradiction|].
  intros _ Hall. inversion Hall as [|? ? Hx Hrest]; subst.
  destruct items as [|y items].
  - cbn [join]. now apply split_comma_free.
  - change (join [44] (x :: y :: items)) with (x ++ 44 :: join [44] (y :: items)).
    rewrite (split_app_comma _ _ Hx). f_equal. apply IH; [discriminate | exact Hrest].
Qed.

Lemma list_item_head (x : jsstring) :
  list_item x -> exists c t, x = c :: t /\ is_space c = false.
Proof.
  intros (Hne & _ & Ht).
  destruct (trim_cases x) as [E|(c & u & Hc & E & _)].
  - rewrite E in Ht. now subst x.
  - rewrite Ht in E. now exists c, (rev u).
Qed.

Lemma trim_not_empty (c : N) (s : jsstring) :
  is_space c = false -> is_empty (trim (c :: s)) = false.
Proof.
  intros Hc. unfold trim. rewrite (trim_start_keep c s Hc).
  cbn [rev]. rewrite (trim_start_app (rev s) c [] Hc).
  rewrite rev_app_distr. reflexivity.
Qed.

(** X5. Round trip: a non-empty list of patterns, each not empty, without
    comma and without white space at its ends, joined by commas and read
    back by [parseList], is the same list. *)
Theorem parseList_join (items defaultValue : list jsstring) :
  items <> [] ->
  Forall list_item items ->
  parseList (Some (join [44] items)) defaultValue = items.
Proof.
  intros Hne Hall. cbn [parseList].
  assert (Hhead : exists c t, join [44] items = c :: t /\ is_space c = false).
  { destruct items as [|x items]; [contradiction|].
    inversion Hall as [|? ? Hx _]; subst.
    destruct (list_item_head x Hx) as (c & t & -> & Hc).
    destruct items; cbn [join app]; eauto. }
  destruct Hhead as (c & t & Ej & Hc).
  rewrite Ej at 1 2. cbn [is_empty orb]. rewrite (trim_not_empty c t Hc).
  rewrite split_join; [| exact Hne |].
  - assert (Hmap : map trim items = items).
    { clear Hne Ej. induction Hall as [|x items (_ & _ & Hx) _ IH]; [reflexivity|].
      cbn [map]. now rewrite Hx, IH. }
    rewrite Hmap. apply forallb_filter_id.
    apply forallb_forall. intros x Hx.
    rewrite Forall_forall in Hall. destruct (Hall x Hx) as (Hx0 & _).
    now destruct x.
  - eapply Forall_impl; [|exact Hall]. now intros x (_ & Hx & _).
Qed.

(** The list of the README example. *)
Lemma parseList_join_witness :
  parseList (Some (js "https://myapp.com,*.mydomain.com")) []
  = [js "https://myapp.com"; js "*.mydomain.com"].
Proof.
  apply (parseList_join [js "https://myapp.com"; js "*.mydomain.com"] []).
  - discriminate.
  - repeat constructor; try discriminate; reflexivity.
Defined.

(* ================================================================== *)
(** ** Edges of the access policy *)
(* ================================================================== *)

(** X6. When each of the four bindings is unset, empty or nothing but
    white space (or there are no bindings at all), every target and every
    origin is allowed, and no pattern is ever handed to the engine. *)
Theorem no_lists_allow_all (P : Platform) (env : option Env)
        (targetUrl originHeader : option jsstring) :
  (forall e, env = Some e ->
             blank (WHITELIST_URLS e) /\ blank (BLACKLIST_URLS e)
             /\ blank (WHITELIST_ORIGINS e) /\ blank (BLACKLIST_ORIGINS e)) ->
  getAccessLists env
  = {| whitelistUrls := []; blacklistUrls := []; whitelistOrigins := []; blacklistOrigins := [] |}
  /\ isAccessAllowed P targetUrl originHeader (getAccessLists env) = Ok true.
Proof.
  intros Hblank.
  assert (E : getAccessLists env
              = {| whitelistUrls := []; blacklistUrls := [];
                   whitelistOrigins := []; blacklistOrigins := [] |}).
  { unfold getAccessLists. destruct env as [e|]; [|reflexivity].
    destruct (Hblank e eq_refl) as (H1 & H2 & H3 & H4).
    now rewrite (parseList_blank _ [] H1), (parseList_blank _ [] H2),
      (parseList_blank _ [] H3), (parseList_blank _ [] H4). }
  split; [exact E|]. rewrite E. reflexivity.
Qed.

(** Bindings that are set but blank. *)
Lemma no_lists_allow_all_witness :
  isAccessAllowed offline (Some (js "https://anything.test/")) None
    (getAccessLists (Some {| WHITELIST_URLS := Some (js "  "); BLACKLIST_URLS := Some [];
                             WHITELIST_ORIGINS := None; BLACKLIST_ORIGINS := Some [9; 32] |}))
  = Ok true.
Proof.
  apply (no_lists_allow_all offline).
  intros e [= <-]. repeat split; reflexivity.
Defined.

Lemma isMatched_no_subject (P : Platform) (x : option jsstring) (l : list jsstring) :
  x = None \/ x = Some [] ->
  isMatched P x l = Ok (match l with [] => true | _ :: _ => false end).
Proof. intros [->| ->]; reflexivity. Qed.

(** X7. A request without Origin header (or with an empty one) meets the
    origin lists without any pattern being tried: an origin blacklist has
    no effect on it, and a non-empty origin whitelist denies it as soon as
    the URL blacklist lets the target through. *)
Theorem origin_lists_without_origin (P : Platform) (targetUrl originHeader : option jsstring)
        (L : AccessLists) :
  originHeader = None \/ originHeader = Some [] ->
  isAccessAllowed P targetUrl originHeader L
  = isAccessAllowed P targetUrl originHeader (without_origin_blacklist L)
  /\ (whitelistOrigins L <> [] ->
      clear_of P targetUrl (blacklistUrls L) ->
      isAccessAllowed P targetUrl originHeader L = Ok false).
Proof.
  intros Ho.
  assert (Hb : guarded (blacklistOrigins L) (isMatched P originHeader (blacklistOrigins L))
               = Ok false).
  { rewrite (isMatched_no_subject P _ _ Ho). now destruct (blacklistOrigins L). }
  split.
  - unfold isAccessAllowed. rewrite Hb. reflexivity.
  - intros Hw Hu. unfold isAccessAllowed. rewrite Hb. cbn [bind].
    rewrite (guarded_clear P _ _ Hu). cbn [bind].
    rewrite (isMatched_no_subject P _ _ Ho).
    destruct (whitelistOrigins L); [contradiction | reflexivity].
Qed.

(** An origin blacklist holding [*] and an origin whitelist, against a
    request without Origin. *)
Lemma origin_lists_without_origin_witness :
  let L := {| whitelistUrls := []; blacklistUrls := [];
              whitelistOrigins := [js "https://app.example"];
              blacklistOrigins := [js "*"] |} in
  isAccessAllowed offline (Some (js "https://target.test/")) None L = Ok false
  /\ isAccessAllowed offline (Some (js "https://target.test/")) None
       (without_origin_blacklist L) = Ok false.
Proof.
  intros L.
  destruct (origin_lists_without_origin offline (Some (js "https://target.test/")) None L
              (or_introl eq_refl)) as [H1 H2].
  split; [| rewrite <- H1]; (apply H2; [discriminate | now left]).
Defined.

(** X8. With a URL whitelist configured, a request without query string is
    denied: its target is the empty string, which no list matches, so the
    answer is the 403 page and not the informational page, provided the
    origin passes the origin lists. *)
Theorem info_page_denied_by_url_whitelist (P : Platform) (request : Request)
        (env : option Env) :
  url_search request = [] ->
  whitelistUrls (getAccessLists env) <> [] ->
  clear_of P (headers_get (req_headers request) (js "Origin"))
    (blacklistOrigins (getAccessLists env)) ->
  admitted_by P (headers_get (req_headers request) (js "Origin"))
    (whitelistOrigins (getAccessLists env)) ->
  fetch P request env =
    Ok {| status := 403;
          statusText := js "Forbidden";
          res_headers := [(js "content-type", js "text/html")];
          body := TextBody forbidden_page |}.
Proof.
  intros Hs Hw Hbo Hwo.
  assert (Ha : isAccessAllowed P (Some []) (headers_get (req_headers request) (js "Origin"))
                 (getAccessLists env) = Ok false).
  { unfold isAccessAllowed.
    rewrite (guarded_clear P _ _ Hbo). cbn [bind].
    rewrite (isMatched_no_subject P (Some []) _ (or_intror eq_refl)).
    replace (guarded (blacklistUrls (getAccessLists env))
               (Ok match blacklistUrls (getAccessLists env) with
                   | [] => true | _ :: _ => false end))
      with (@Ok bool false) by now destruct (blacklistUrls (getAccessLists env)).
    cbn [bind].
    rewrite (guarded_admitted P _ _ Hwo). cbn [bind].
    rewrite (isMatched_no_subject P (Some []) _ (or_intror eq_refl)).
    destruct (whitelistUrls (getAccessLists env)); [contradiction | reflexivity]. }
  unfold fetch. rewrite Hs.
  change (URI.decodeURIComponent (substr1 [])) with (@Ok jsstring []).
  cbn [bind].
  change (URI.decodeURIComponent []) with (@Ok jsstring []).
  cbn [bind].
  match goal with
  | |- bind ?x _ = _ => replace x with (@Ok bool false) by (symmetry; exact Ha)
  end.
  reflexivity.
Qed.

(** GET / with WHITELIST_URLS=https://api.example.com/*. *)
Lemma info_page_denied_by_url_whitelist_witness :
  fetch offline
    {| method := js "GET"; url_origin := js "https://proxy.test"; url_search := [];
       req_headers := [(js "origin", js "https://app.example")]; cf := None |}
    (Some {| WHITELIST_URLS := Some (js "https://api.example.com/*");
             BLACKLIST_URLS := None; WHITELIST_ORIGINS := None; BLACKLIST_ORIGINS := None |})
  = Ok {| status := 403;
          statusText := js "Forbidden";
          res_headers := [(js "content-type", js "text/html")];
          body := TextBody forbidden_page |}.
Proof.
  apply (info_page_denied_by_url_whitelist offline).
  - reflexivity.
  - discriminate.
  - now left.
  - now left.
Defined.

Lemma some_app_true {A : Type} (f : A -> result bool) (l l' : list A) :
  some f l = Ok true -> some f (l ++ l') = Ok true.
Proof.
  induction l as [|a l IH]; cbn [some app]; [discriminate|].
  destruct (f a) as [[|]|e]; cbn [bind]; try easy.
Qed.

(** X9. A match is decided at the first pattern that matches: once a
    non-empty list matches a subject, the list extended by any further
    patterns matches it too, even by patterns the engine would reject. *)
Theorem isMatched_extend (P : Platform) (uri : option jsstring) (l l' : list jsstring) :
  l <> [] ->
  isMatched P uri l = Ok true ->
  isMatched P uri (l ++ l') = Ok true.
Proof.
  intros Hl Hm. destruct l as [|p l]; [contradiction|].
  destruct uri as [[|c u]|]; cbn [isMatched app] in *; try discriminate.
  now apply (some_app_true _ (p :: l) l').
Qed.

(** A matching blacklist followed by an unterminated group. *)
Lemma isMatched_extend_witness :
  isMatched offline (Some (js "https://evil.com")) [js "https://evil.*"] = Ok true
  /\ isMatched offline (Some (js "https://evil.com")) ([js "https://evil.*"] ++ [js "("])
     = Ok true
  /\ isMatched offline (Some (js "https://evil.com")) ([js "("] ++ [js "https://evil.*"])
     = Throw SyntaxError.
Proof.
  split; [reflexivity|]. split; [|reflexivity].
  apply (isMatched_extend offline); [discriminate | reflexivity].
Defined.

(* ================================================================== *)
(** ** What every response carries, and what the upstream decides *)
(* ================================================================== *)

(** X10. Every response the handler returns comes after both decodings and
    a verdict of the access lists, and its Access-Control-Allow-Origin
    follows that verdict: on an allowed request it is the request's Origin
    value, whatever that value is (the text [null] without the header),
    and on a denied request it is absent. *)
Theorem response_allow_origin (P : Platform) (request : Request) (env : option Env)
        (resp : Response) :
  fetch P request env = Ok resp ->
  exists once targetUrl allowed,
    URI.decodeURIComponent (substr1 (url_search request)) = Ok once
    /\ URI.decodeURIComponent once = Ok targetUrl
    /\ isAccessAllowed P (Some targetUrl) (headers_get (req_headers request) (js "Origin"))
         (getAccessLists env) = Ok allowed
    /\ headers_get (res_headers resp) (js "Access-Control-Allow-Origin")
       = if allowed
         then Some (ToString (headers_get (req_headers request) (js "Origin")))
         else None.
Proof.
  intros Hr. unfold fetch in Hr.
  destruct (URI.decodeURIComponent (substr1 (url_search request))) as [once|e] eqn:H1;
    cbn [bind] in Hr; [|discriminate].
  destruct (URI.decodeURIComponent once) as [targetUrl|e] eqn:H2;
    cbn [bind] in Hr; [|discriminate].
  destruct (isAccessAllowed P (Some targetUrl) _ (getAccessLists env)) as [allowed|e] eqn:Ha;
    cbn [bind] in Hr; [|discriminate].
  exists once, targetUrl, allowed.
  split; [reflexivity|]. split; [exact H2|]. split; [exact Ha|].
  destruct allowed.
  - destruct (startsWith (js "?") (url_search request)).
    + destruct (upstream P targetUrl request _) as [u|e]; cbn [bind] in Hr; [|discriminate].
      rewrite (Response_new_get _ _ _ _ _ _ Hr) by reflexivity.
      through_updates. apply setupCORSHeaders_allow_origin.
    + rewrite (Response_new_get _ _ _ _ _ _ Hr) by reflexivity.
      apply setupCORSHeaders_allow_origin.
  - rewrite (Response_new_get _ _ _ _ _ _ Hr) by reflexivity. reflexivity.
Qed.

(** An upstream that sends its own Access-Control-Allow-Origin. *)
Lemma response_allow_origin_witness :
  let request := {| method := js "GET"; url_origin := js "https://proxy.test";
                    url_search := js "?https://httpbin.org/get";
                    req_headers := [(js "origin", js "https://app.example")];
                    cf := None |} in
  let u := {| up_status := 200; up_statusText := js "OK";
              up_headers := [(js "access-control-allow-origin", js "https://other.example")];
              up_body := [] |} in
  exists resp,
    fetch (online u) request None = Ok resp
    /\ headers_get (res_headers resp) (js "Access-Control-Allow-Origin")
       = Some (js "https://app.example").
Proof.
  intros request u.
  assert (Hf : exists resp, fetch (online u) request None = Ok resp
                            /\ status resp = 200).
  { eexists. split; vm_compute; reflexivity. }
  destruct Hf as (resp & Hf & _).
  destruct (response_allow_origin (online u) request None resp Hf)
    as (once & targetUrl & allowed & H1 & H2 & Ha & Hh).
  exists resp. split; [exact Hf|].
  vm_compute in H1. injection H1 as <-.
  vm_compute in H2. injection H2 as <-.
  vm_compute in Ha. injection Ha as <-.
  exact Hh.
Defined.

(** X11. A proxied call that is no preflight hands the upstream answer on:
    when the upstream status is one a response with a body can take, the
    handler returns a response with the upstream's status, status text and
    body, and each header other than Access-Control-Allow-Origin,
    Access-Control-Expose-Headers and cors-received-headers reads as it
    does in the upstream answer (X-Content-Type-Options included, which
    only a preflight loses). *)
Theorem fetch_pass_through (P : Platform) (request : Request) (env : option Env)
        (once targetUrl : jsstring) (u : UpstreamResponse) :
  startsWith (js "?") (url_search request) = true ->
  URI.decodeURIComponent (substr1 (url_search request)) = Ok once ->
  URI.decodeURIComponent once = Ok targetUrl ->
  isAccessAllowed P (Some targetUrl) (headers_get (req_headers request) (js "Origin"))
    (getAccessLists env) = Ok true ->
  upstream P targetUrl request
    {| redirect := js "follow";
       init_headers := filteredHeaders_of request (customHeaders_of request) |} = Ok u ->
  str_eqb (method request) (js "OPTIONS") = false ->
  200 <= up_status u <= 599 ->
  null_body_status (up_status u) = false ->
  exists resp,
    fetch P request env = Ok resp
    /\ status resp = up_status u
    /\ statusText resp = up_statusText u
    /\ body resp = BufferBody (up_body u)
    /\ forall name,
         same_name (js "Access-Control-Allow-Origin") name = false ->
         same_name (js "Access-Control-Expose-Headers") name = false ->
         same_name (js "cors-received-headers") name = false ->
         headers_get (res_headers resp) name = headers_get (up_headers u) name.
Proof.
  intros Hq H1 H2 Ha Hu Hm [Hlo Hhi] Hnb.
  rewrite (fetch_proxied P request env once targetUrl u Hq H1 H2 Ha Hu).
  rewrite Hm. unfold Response_new.
  replace (up_status u <? 200) with false by (symmetry; apply N.ltb_ge; exact Hlo).
  replace (599 <? up_status u) with false by (symmetry; apply N.ltb_ge; exact Hhi).
  cbn [orb]. rewrite Hnb.
  eexists. split; [reflexivity|]. cbn [status statusText body res_headers].
  repeat split.
  intros name Ho He Hc.
  rewrite (headers_get_set_other _ _ _ _ Hc), (headers_get_set_other _ _ _ _ He).
  unfold setupCORSHeaders. rewrite Hm.
  now apply headers_get_set_other.
Qed.

(** GET /?https://httpbin.org/get, answered 404. *)
Lemma fetch_pass_through_witness :
  let request := {| method := js "GET"; url_origin := js "https://proxy.test";
                    url_search := js "?https://httpbin.org/get";
                    req_headers := [(js "origin", js "https://app.example")];
                    cf := None |} in
  exists resp,
    fetch (online upstream_404) request None = Ok resp
    /\ status resp = 404
    /\ statusText resp = up_statusText upstream_404
    /\ body resp = BufferBody (up_body upstream_404)
    /\ headers_get (res_headers resp) (js "X-Content-Type-Options")
       = headers_get (up_headers upstream_404) (js "X-Content-Type-Options").
Proof.
  intros request.
  destruct (fetch_pass_through (online upstream_404) request None
              (js "https://httpbin.org/get") (js "https://httpbin.org/get") upstream_404)
    as (resp & Hf & Hs & Ht & Hb & Hh);
    try reflexivity.
  - split; discriminate.
  - exists resp. repeat split; try assumption. apply Hh; reflexivity.
Defined.

Lemma isAccessAllowed_with_upstream (P : Platform)
      (up : jsstring -> Request -> RequestInit -> result UpstreamResponse)
      (targetUrl originHeader : option jsstring) (L : AccessLists) :
  isAccessAllowed (with_upstream P up) targetUrl originHeader L
  = isAccessAllowed P targetUrl originHeader L.
Proof. reflexivity. Qed.

Lemma fetch_with_upstream_agree (P : Platform)
      (up up' : jsstring -> Request -> RequestInit -> result UpstreamResponse)
      (request : Request) (env : option Env) :
  (forall once targetUrl,
      URI.decodeURIComponent (substr1 (url_search request)) = Ok once ->
      URI.decodeURIComponent once = Ok targetUrl ->
      isAccessAllowed P (Some targetUrl) (headers_get (req_headers request) (js "Origin"))
        (getAccessLists env) = Ok true ->
      startsWith (js "?") (url_search request) = true ->
      up targetUrl request
        {| redirect := js "follow";
           init_headers := filteredHeaders_of request (customHeaders_of request) |}
      = up' targetUrl request
          {| redirect := js "follow";
             init_headers := filteredHeaders_of request (customHeaders_of request) |}) ->
  fetch (with_upstream P up) request env = fetch (with_upstream P up') request env.
Proof.
  intros H. unfold fetch.
  destruct (URI.decodeURIComponent (substr1 (url_search request))) as [once|e] eqn:H1;
    cbn [bind]; [|reflexivity].
  destruct (URI.decodeURIComponent once) as [targetUrl|e] eqn:H2; cbn [bind]; [|reflexivity].
  rewrite !isAccessAllowed_with_upstream.
  destruct (isAccessAllowed P (Some targetUrl) _ (getAccessLists env)) as [[|]|e] eqn:Ha;
    cbn [bind]; try reflexivity.
  destruct (startsWith (js "?") (url_search request)) eqn:Hq; [|reflexivity].
  cbn [upstream with_upstream].
  now rewrite (H once targetUrl eq_refl H2 Ha eq_refl).
Qed.

(** X12. The handler reaches the network at one place only.  Two networks
    that answer alike to the one call an allowed request with a query
    string makes (the doubly decoded target, the incoming request, redirect
    mode follow and the filtered headers) give the same outcome, so that the
    outcome of a denied request, and of one without query string, does not
    depend on the network at all.  And when that one call fails, the
    handler fails with the same error: nothing catches it. *)
Theorem upstream_single_call (P : Platform)
        (up up' : jsstring -> Request -> RequestInit -> result UpstreamResponse)
        (request : Request) (env : option Env) :
  (forall once targetUrl,
      URI.decodeURIComponent (substr1 (url_search request)) = Ok once ->
      URI.decodeURIComponent once = Ok targetUrl ->
      isAccessAllowed P (Some targetUrl) (headers_get (req_headers request) (js "Origin"))
        (getAccessLists env) = Ok true ->
      startsWith (js "?") (url_search request) = true ->
      up targetUrl request
        {| redirect := js "follow";
           init_headers := filteredHeaders_of request (customHeaders_of request) |}
      = up' targetUrl request
          {| redirect := js "follow";
             init_headers := filteredHeaders_of request (customHeaders_of request) |}) ->
  fetch (with_upstream P up) request env = fetch (with_upstream P up') request env
  /\ (forall once targetUrl e,
         URI.decodeURIComponent (substr1 (url_search request)) = Ok once ->
         URI.decodeURIComponent once = Ok targetUrl ->
         isAccessAllowed P (Some targetUrl) (headers_get (req_headers request) (js "Origin"))
           (getAccessLists env) = Ok true ->
         startsWith (js "?") (url_search request) = true ->
         up targetUrl request
           {| redirect := js "follow";
              init_headers := filteredHeaders_of request (customHeaders_of request) |}
         = Throw e ->
         fetch (with_upstream P up) request env = Throw e).
Proof.
  intros H. split.
  - now apply fetch_with_upstream_agree.
  - intros once targetUrl e H1 H2 Ha Hq Hu. unfold fetch.
    rewrite H1. cbn [bind]. rewrite H2. cbn [bind].
    rewrite isAccessAllowed_with_upstream, Ha. cbn [bind]. rewrite Hq.
    cbn [upstream with_upstream]. rewrite Hu. reflexivity.
Qed.

(** A request the URL blacklist denies, on a network that answers and on
    one that is down. *)
Lemma upstream_single_call_witness :
  let request := {| method := js "GET"; url_origin := js "https://proxy.test";
                    url_search := js "?https://evil.com/x";
                    req_headers := [(js "origin", js "https://app.example")];
                    cf := None |} in
  let env := Some {| WHITELIST_URLS := None; BLACKLIST_URLS := Some (js "https://evil.*");
                     WHITELIST_ORIGINS := None; BLACKLIST_ORIGINS := None |} in
  fetch (with_upstream offline (fun _ _ _ => Ok upstream_200)) request env
  = fetch (with_upstream offline (fun _ _ _ => Throw NetworkError)) request env.
Proof.
  intros request env.
  apply (upstream_single_call offline (fun _ _ _ => Ok upstream_200)
           (fun _ _ _ => Throw NetworkError) request env).
  intros once targetUrl H1 H2 Ha _.
  vm_compute in H1. injection H1 as <-.
  vm_compute in H2. injection H2 as <-.
  vm_compute in Ha. discriminate.
Defined.

(* ================================================================== *)
(** ** Patterns without wildcard *)
(* ================================================================== *)

Lemma plain_char_cases (c : N) :
  plain_char c = true ->
  c = 46 \/ (RegExp.pattern_char c = true /\ (c =? 46) = false).
Proof.
  unfold plain_char. destruct (N.eqb_spec c 46) as [->|Hne]; [now left|].
  rewrite orb_false_r. intros H. now right.
Qed.

Lemma pattern_char_plain (c : N) :
  RegExp.pattern_char c = true ->
  (c =? 40) = false /\ (c =? 41) = false /\ (c =? 124) = false /\ (c =? 42) = false
  /\ (c =? 43) = false /\ (c =? 63) = false /\ (c =? 92) = false /\ (c =? 94) = false
  /\ (c =? 36) = false /\ (c =? 46) = false.
Proof.
  unfold RegExp.pattern_char. cbn [existsb]. intros H.
  apply negb_true_iff in H.
  repeat (apply orb_false_iff in H as [? H]).
  repeat split; assumption.
Qed.

(** The parser reads a pattern of plain characters and dots term by term. *)
Lemma parse_from_plain (p : jsstring) :
  forallb plain_char p = true ->
  forall cur q,
    RegExp.parse_from p cur [] q =
    RegExp.Parsed
      (RegExp.close_frame
         (RegExp.mkFrame (RegExp.alts cur) (rev (plain_terms p) ++ RegExp.terms cur))).
Proof.
  induction p as [|c p IH]; intros Hp cur q.
  - destruct cur. reflexivity.
  - cbn [forallb] in Hp. apply andb_true_iff in Hp as [Hc Hp].
    change (plain_terms (c :: p))
      with ((if c =? 46 then RegExp.Any else RegExp.Chr c) :: plain_terms p).
    cbn [rev]. rewrite <- app_assoc. cbn [app].
    destruct (plain_char_cases c Hc) as [->|[Hpc H46]].
    + cbn [RegExp.parse_from N.eqb Pos.eqb orb].
      now rewrite (IH Hp).
    + destruct (pattern_char_plain c Hpc)
        as (E1 & E2 & E3 & E4 & E5 & E6 & E7 & E8 & E9 & E10).
      cbn [RegExp.parse_from].
      rewrite E1, E2, E3, E4, E5, E6, E7, E8, E9, E10, Hpc. cbn [orb].
      now rewrite (IH Hp).
Qed.

Lemma parse_plain (p : jsstring) :
  forallb plain_char p = true ->
  RegExp.parse p = RegExp.Parsed (fold_right RegExp.Cat RegExp.Eps (plain_terms p)).
Proof.
  intros Hp. unfold RegExp.parse. rewrite (parse_from_plain p Hp).
  cbn [RegExp.alts RegExp.terms RegExp.close_frame fold_left]. rewrite app_nil_r.
  unfold RegExp.seq_of. f_equal.
  rewrite <- fold_left_rev_right. now rewrite rev_involutive.
Qed.

Lemma m_plain_terms (canon : N -> N) (p : jsstring) :
  forall s b,
    RegExp.m canon (fold_right RegExp.Cat RegExp.Eps (plain_terms p)) b s (fun _ _ => true)
    = dotted_prefix canon p s.
Proof.
  induction p as [|c p IH]; intros s b.
  - destruct s; reflexivity.
  - cbn [plain_terms map fold_right dotted_prefix].
    destruct (c =? 46); cbn [RegExp.m]; (destruct s as [|x s]; [reflexivity|]);
      now rewrite IH.
Qed.

Lemma search_plain_terms (canon : N -> N) (p s : jsstring) :
  forall b,
    RegExp.search canon (fold_right RegExp.Cat RegExp.Eps (plain_terms p)) b s
    = dotted_anywhere canon p s.
Proof.
  induction s as [|x s IH]; intros b; cbn [RegExp.search dotted_anywhere];
    rewrite m_plain_terms.
  - reflexivity.
  - now rewrite IH.
Qed.

Lemma plain_no_wildcard (p : jsstring) :
  forallb plain_char p = true -> includes 42 p = false.
Proof.
  induction p as [|c p IH]; [reflexivity|].
  cbn [forallb]. intros H. apply andb_true_iff in H as [Hc Hp].
  unfold includes. cbn [existsb]. fold (includes 42 p). rewrite (IH Hp).
  rewrite orb_false_r.
  destruct (plain_char_cases c Hc) as [->|[Hpc _]]; [reflexivity|].
  rewrite N.eqb_sym. apply (pattern_char_plain c Hpc).
Qed.

Lemma dotted_prefix_self (canon : N -> N) (p post : jsstring) :
  dotted_prefix canon p (p ++ post) = true.
Proof.
  induction p as [|c p IH]; [reflexivity|].
  cbn [app dotted_prefix]. rewrite IH, andb_true_r.
  destruct (N.eqb_spec c 46) as [->|_]; [reflexivity | apply N.eqb_refl].
Qed.

Lemma dotted_anywhere_app (canon : N -> N) (p pre s : jsstring) :
  dotted_anywhere canon p s = true -> dotted_anywhere canon p (pre ++ s) = true.
Proof.
  intros H. induction pre as [|x pre IH]; [exact H|].
  cbn [app dotted_anywhere]. rewrite IH. apply orb_true_r.
Qed.

(** X13. A pattern without [*] that uses no regular-expression syntax but
    the dot is looked for anywhere in the subject, letters compared up to
    case and each dot standing for any character but a line terminator.
    So such a pattern matches every subject that contains it, whatever
    stands before and after: the pattern is not anchored. *)
Theorem plain_pattern_anywhere (P : Platform) (p : jsstring) :
  engine_conforms P ->
  forallb plain_char p = true ->
  (forall s, pattern_test P s p = Ok (dotted_anywhere (canonicalize P) p s))
  /\ (forall pre post, pattern_test P (pre ++ p ++ post) p = Ok true)
  /\ (forall pre post l,
        pre ++ p ++ post <> [] ->
        isMatched P (Some (pre ++ p ++ post)) (p :: l) = Ok true).
Proof.
  intros Hconf Hp.
  assert (Ht : forall s, pattern_test P s p = Ok (dotted_anywhere (canonicalize P) p s)).
  { intros s. unfold pattern_test. rewrite (plain_no_wildcard p Hp).
    specialize (Hconf p s). rewrite (parse_plain p Hp) in Hconf. rewrite Hconf.
    unfold RegExp.test. now rewrite search_plain_terms. }
  assert (Hin : forall pre post, pattern_test P (pre ++ p ++ post) p = Ok true).
  { intros pre post. rewrite Ht. f_equal. apply dotted_anywhere_app.
    destruct (p ++ post) eqn:E; cbn [dotted_anywhere]; rewrite <- E;
      now rewrite dotted_prefix_self. }
  split; [exact Ht|]. split; [exact Hin|].
  intros pre post l Hne.
  destruct (pre ++ p ++ post) as [|c u] eqn:E; [contradiction|].
  cbn [isMatched some]. rewrite <- E, Hin. reflexivity.
Qed.

(** The whitelist entry [https://myapp.com] of the README against a target
    that merely carries it in its query. *)
Lemma plain_pattern_anywhere_witness :
  pattern_test offline (js "https://evil.test/?https://myapp.com") (js "https://myapp.com")
  = Ok true
  /\ pattern_test offline (js "HTTPS://MYAPPXCOM.EVIL.TEST") (js "https://myapp.com")
     = Ok (dotted_anywhere ascii_upper (js "https://myapp.com")
             (js "HTTPS://MYAPPXCOM.EVIL.TEST"))
  /\ dotted_anywhere ascii_upper (js "https://myapp.com") (js "HTTPS://MYAPPXCOM.EVIL.TEST")
     = true.
Proof.
  destruct (plain_pattern_anywhere offline (js "https://myapp.com")
              (model_engine_conforms _) eq_refl) as (Ht & Hin & _).
  split; [exact (Hin (js "https://evil.test/?") [])|].
  split; [apply Ht | reflexivity].
Defined.

(* ================================================================== *)
(** ** The target of a request *)
(* ================================================================== *)

Lemma decode_escape_percent (s : jsstring) :
  URI.decodeURIComponent (escape_percent s) = Ok s.
Proof.
  unfold URI.decodeURIComponent.
  induction s as [|c s IH]; [reflexivity|].
  cbn [escape_percent flat_map]. fold (escape_percent s).
  destruct (c =? 37) eqn:E.
  - apply N.eqb_eq in E. subst c.
    change (js "%25" ++ escape_percent s) with (37 :: 50 :: 53 :: escape_percent s).
    change (URI.decode None (37 :: 50 :: 53 :: escape_percent s))
      with (r <- URI.decode None (escape_percent s) ;; Ok (37 :: r)).
    now rewrite IH.
  - cbn [app URI.decode]. rewrite E, IH. reflexivity.
Qed.

Lemma escape_percent_plain (s : jsstring) :
  includes 37 s = false -> escape_percent s = s.
Proof.
  induction s as [|c s IH]; [reflexivity|].
  unfold includes. cbn [existsb]. intros H. apply orb_false_iff in H as [Hc Hs].
  cbn [escape_percent flat_map]. fold (escape_percent s).
  rewrite N.eqb_sym in Hc. rewrite Hc. cbn [app]. f_equal. now apply IH.
Qed.

(** X14. The two decodings undo two rounds of escaping.  For every string
    [t], the query that is [t] with its percent signs escaped twice (and so
    [t] itself when it holds no percent sign) makes [t] the target: the
    access lists are asked about [t], a denial is the 403 response, and on
    an allowed request no address but [t] is contacted. *)
Theorem target_round_trip (P : Platform) (request : Request) (env : option Env)
        (t : jsstring) :
  url_search request = 63 :: escape_percent (escape_percent t) ->
  (includes 37 t = false -> url_search request = 63 :: t)
  /\ (exists once,
         URI.decodeURIComponent (substr1 (url_search request)) = Ok once
         /\ URI.decodeURIComponent once = Ok t)
  /\ (forall e,
         isAccessAllowed P (Some t) (headers_get (req_headers request) (js "Origin"))
           (getAccessLists env) = Throw e ->
         fetch P request env = Throw e)
  /\ (isAccessAllowed P (Some t) (headers_get (req_headers request) (js "Origin"))
         (getAccessLists env) = Ok false ->
       fetch P request env =
         Ok {| status := 403;
               statusText := js "Forbidden";
               res_headers := [(js "content-type", js "text/html")];
               body := TextBody forbidden_page |})
  /\ (forall up,
         fetch (with_upstream P up) request env
         = fetch (with_upstream P (only_at t up)) request env).
Proof.
  intros Hs.
  assert (H1 : URI.decodeURIComponent (substr1 (url_search request))
               = Ok (escape_percent t)).
  { rewrite Hs. apply decode_escape_percent. }
  pose proof (decode_escape_percent t) as H2.
  split; [|split; [|split; [|split]]].
  - intros Hp. rewrite Hs. now rewrite !(escape_percent_plain t Hp).
  - exists (escape_percent t). now split.
  - intros e Ha. unfold fetch. rewrite H1. cbn [bind]. rewrite H2. cbn [bind].
    now rewrite Ha.
  - intros Ha. unfold fetch. rewrite H1. cbn [bind]. rewrite H2. cbn [bind].
    now rewrite Ha.
  - intros up. apply fetch_with_upstream_agree.
    intros once targetUrl E1 E2 _ _.
    rewrite H1 in E1. injection E1 as <-. rewrite H2 in E2. injection E2 as <-.
    unfold only_at. now rewrite str_eqb_refl.
Qed.

(** The target [https://a.test/100%] asked for as [?https://a.test/100%2525]. *)
Lemma target_round_trip_witness :
  let request := {| method := js "GET"; url_origin := js "https://proxy.test";
                    url_search := js "?https://a.test/100%2525";
                    req_headers := []; cf := None |} in
  exists once,
    URI.decodeURIComponent (substr1 (url_search request)) = Ok once
    /\ URI.decodeURIComponent once = Ok (js "https://a.test/100%").
Proof.
  intros request.
  apply (target_round_trip offline request None (js "https://a.test/100%")).
  reflexivity.
Defined.

(* ================================================================== *)
(** ** The informational page and the custom headers *)
(* ================================================================== *)

(** X15. The informational page shows the custom headers back.  When the
    x-cors-headers header of a request without query string is the JSON
    text of an object of strings, as [JSON.stringify] writes it, parsing
    gives that object and the page, sent with status 200, ends with an
    empty line and the line [x-cors-headers: ] followed by the very text
    of the header. *)
Theorem info_page_custom_headers (P : Platform) (request : Request) (env : option Env)
        (o : jsobject) :
  ordered o -> all_strings o ->
  headers_get (req_headers request) (js "x-cors-headers")
  = Some (JSON.stringify (number_to_string P) (JObj o)) ->
  url_search request = [] ->
  isAccessAllowed P (Some []) (headers_get (req_headers request) (js "Origin"))
    (getAccessLists env) = Ok true ->
  customHeaders_of request = JObj o
  /\ exists resp page,
       fetch P request env = Ok resp
       /\ status resp = 200
       /\ body resp =
          TextBody (page ++ nl ++ nl ++ js "x-cors-headers: "
                         ++ JSON.stringify (number_to_string P) (JObj o)).
Proof.
  intros Ho Hs Hh Hq Ha.
  assert (Hc : customHeaders_of request = JObj o).
  { unfold customHeaders_of. rewrite Hh.
    now rewrite (parse_stringify_object (number_to_string P) o Ho Hs). }
  split; [exact Hc|].
  assert (Hf : fetch P request env
               = Response_new (TextBody (info_page P request (JObj o))) 200 []
                   (setupCORSHeaders request [])).
  { unfold fetch. rewrite Hq.
    change (URI.decodeURIComponent (substr1 [])) with (@Ok jsstring []).
    cbn [bind].
    change (URI.decodeURIComponent []) with (@Ok jsstring []).
    cbn [bind].
    match goal with
    | |- bind ?x _ = _ => replace x with (@Ok bool true) by (symmetry; exact Ha)
    end.
    cbn [bind]. rewrite Hc. reflexivity. }
  rewrite Hf. unfold Response_new.
  change ((200 <? 200) || (599 <? 200)) with false.
  change (null_body_status 200) with false. cbv iota.
  eexists. eexists. split; [reflexivity|]. cbn [status body].
  split; [reflexivity|]. f_equal.
  unfold info_page. cbn [is_null].
  set (tail := nl ++ nl ++ js "x-cors-headers: "
                  ++ JSON.stringify (number_to_string P) (JObj o)).
  repeat rewrite app_assoc. reflexivity.
Qed.

(** GET / with x-cors-headers: {"x-api-key":"k1"}. *)
Lemma info_page_custom_headers_witness :
  let raw := js "{" ++ quoted "x-api-key" ++ js ":" ++ quoted "k1" ++ js "}" in
  let request := {| method := js "GET"; url_origin := js "https://proxy.test";
                    url_search := [];
                    req_headers := [(js "x-cors-headers", raw)]; cf := None |} in
  customHeaders_of request = JObj [(js "x-api-key", JStr (js "k1"))]
  /\ exists resp page,
       fetch offline request None = Ok resp
       /\ status resp = 200
       /\ body resp = TextBody (page ++ nl ++ nl ++ js "x-cors-headers: " ++ raw).
Proof.
  intros raw request.
  apply (info_page_custom_headers offline request None [(js "x-api-key", JStr (js "k1"))]).
  - repeat constructor.
  - repeat constructor. now exists (js "k1").
  - reflexivity.
  - reflexivity.
  - reflexivity.
Defined.
